(** * cmdline: a registry of typed command-line flags and its parser

    A shallow embedding of [cmdline.go].  Go strings are byte strings
    ([string]); the registry [CmdParser.vars] is a finite map from flag names
    to slots; standard output is the list of texts written to it; a call
    either returns, panics or exits the process. *)

From Stdlib Require Import ZArith Ascii Floats.SpecFloat.
From stdpp Require Import gmap strings list fin_maps.

Local Open Scope Z_scope.

(** ** The parts of Go's [strings] and [strconv] packages the program calls *)

Module strings.

(** [strings.HasPrefix]. *)
Definition HasPrefix (s prefix : string) : bool := String.prefix prefix s.

(** [strings.Join]. *)
Definition Join (elems : list string) (sep : string) : string :=
  String.concat sep elems.

(** [strings.Replace (s, old, new, 1)]: the first occurrence of [old] in [s]
    is replaced by [new]; the only count the program passes is 1. *)
Fixpoint Replace1 (s old new : string) : string :=
  if String.prefix old s
  then new +:+ String.substring (String.length old)
                                (String.length s - String.length old)%nat s
  else match s with
       | EmptyString => EmptyString
       | String c rest => String c (Replace1 rest old new)
       end.

(** The ASCII white space of Go's [asciiSpace] table:
    tab, line feed, vertical tab, form feed, carriage return, space. *)
Definition isAsciiSpace (c : ascii) : bool :=
  match N_of_ascii c with
  | 9 | 10 | 11 | 12 | 13 | 32 => true
  | _ => false
  end%N.

(** Number of bytes of the white-space rune that [s] starts with, 0 when it
    starts with none.  Beyond ASCII, [unicode.IsSpace] holds of U+0085,
    U+00A0, U+1680, U+2000..U+200A, U+2028, U+2029, U+202F, U+205F and
    U+3000, here in their UTF-8 encodings.  Their first bytes are never
    continuation bytes, so Go's rune decoder always stops on them and a
    byte-wise match finds the same separators. *)
Definition spaceWidth (s : string) : nat :=
  match s with
  | EmptyString => 0%nat
  | String c rest =>
      if isAsciiSpace c then 1%nat
      else
        match N_of_ascii c, rest with
        | 194%N, String d _ =>
            match N_of_ascii d with
            | 133%N | 160%N => 2%nat
            | _ => 0%nat
            end
        | 225%N, String d (String e _) =>
            match N_of_ascii d, N_of_ascii e with
            | 154%N, 128%N => 3%nat
            | _, _ => 0%nat
            end
        | 226%N, String d (String e _) =>
            match N_of_ascii d with
            | 128%N =>
                let n := N_of_ascii e in
                if ((128 <=? n) && (n <=? 138) || (n =? 168) || (n =? 169)
                    || (n =? 175))%N
                then 3%nat else 0%nat
            | 129%N => if (N_of_ascii e =? 159)%N then 3%nat else 0%nat
            | _ => 0%nat
            end
        | 227%N, String d (String e _) =>
            match N_of_ascii d, N_of_ascii e with
            | 128%N, 128%N => 3%nat
            | _, _ => 0%nat
            end
        | _, _ => 0%nat
        end
  end.

Definition flush (field : string) : list string :=
  match field with
  | EmptyString => []
  | _ => [field]
  end.

(** The scan of [strings.Fields]: [skip] counts the bytes of the current
    separator still to pass over, [field] is the field read so far. *)
Fixpoint fieldsLoop (s : string) (skip : nat) (field : string) : list string :=
  match s with
  | EmptyString => flush field
  | String c rest =>
      match skip with
      | S k => fieldsLoop rest k field
      | O =>
          match spaceWidth s with
          | O => fieldsLoop rest 0 (field +:+ String c EmptyString)
          | S k => flush field ++ fieldsLoop rest k EmptyString
          end
      end
  end.

(** [strings.Fields]: the maximal runs of bytes between white space. *)
Definition Fields (s : string) : list string := fieldsLoop s 0 EmptyString.

End strings.

Module strconv.

Definition digit (c : ascii) : option Z :=
  let n := Z.of_N (N_of_ascii c) in
  if (48 <=? n) && (n <=? 57) then Some (n - 48) else None.

(** The digits of [s] read in base 10, most significant first. *)
Fixpoint digits (s : string) (acc : Z) : option Z :=
  match s with
  | EmptyString => Some acc
  | String c rest =>
      match digit c with
      | Some d => digits rest (acc * 10 + d)
      | None => None
      end
  end.

(** [strconv.ParseInt (s, 10, 64)]: an optional sign and at least one
    decimal digit, nothing else; [None] stands for a non-nil [err], which
    is a syntax error or a value outside [-2^63, 2^63 - 1]. *)
Definition ParseInt (s : string) : option Z :=
  match s with
  | EmptyString => None
  | String c rest =>
      let neg := Ascii.eqb c "-" in
      let body := if Ascii.eqb c "+" || neg then rest else s in
      match body with
      | EmptyString => None
      | _ =>
          match digits body 0 with
          | None => None
          | Some un =>
              let cutoff := 2 ^ 63 in
              if negb neg && (cutoff <=? un) then None
              else if neg && (cutoff <? un) then None
              else Some (if neg then - un else un)
          end
      end
  end.

(** Go's [float64]: an IEEE 754 binary64 value. *)
Definition float64 : Type := spec_float.

(** [strconv.ParseFloat (s, 64)] is taken as given: the program only
    distinguishes a nil [err] ([Some]) from a non-nil one ([None]). *)
Class FloatParser : Type := ParseFloat : string -> option float64.

End strconv.

(** ** Flag kinds and slot values *)

(** [None_] is the constant [None] of the source. *)
Inductive FlagArgType : Set :=
| IntFlag | Int64Flag | FloatFlag | StringFlag | BoolFlag | None_.

Definition FlagTypeString (type_name : FlagArgType) : string :=
  match type_name with
  | IntFlag => "IntFlag"
  | Int64Flag => "Int64Flag"
  | FloatFlag => "FloatFlag"
  | StringFlag => "StringFlag"
  | BoolFlag => "BoolFlag"
  | _ => "None"
  end.

(** What [Get] returns as [any]: the value tagged with its dynamic type. *)
Inductive any : Type :=
| AnyInt (v : Z)
| AnyInt64 (v : Z)
| AnyFloat64 (v : strconv.float64)
| AnyString (v : string)
| AnyBool (v : bool).

(** Go's [int] is taken at 64 bits; [int (sv)] wraps [sv] to that width. *)
Definition intSize : Z := 64.

Definition wrap (w z : Z) : Z := (z + 2 ^ (w - 1)) mod 2 ^ w - 2 ^ (w - 1).

Definition int (sv : Z) : Z := wrap intSize sv.

Definition newline : string := String "010"%char EmptyString.

(** [fmt.Println] of one string: the text written to standard output. *)
Definition Println_text (s : string) : string := s +:+ newline.

(** ** The five slot types

    [Set_] is the method [Set]; it returns the slot after the call together
    with what the call printed. *)

Module intVar.
Record t : Type := mk {
  v_name : string;
  v_value : Z;
  v_req : bool;
  v_loaded : bool
}.

Definition createIntVar (name : string) (req : bool) : t :=
  {| v_name := name; v_value := 0; v_req := req; v_loaded := false |}.

Definition ArgType (vs : t) : FlagArgType := IntFlag.
Definition Name (vs : t) : string := v_name vs.

Definition Set_ (vs : t) (value : string) : t * list string :=
  match strconv.ParseInt value with
  | None => (vs, [Println_text "Error setting integer flag variable"])
  | Some sv =>
      ({| v_name := v_name vs; v_value := int sv; v_req := v_req vs;
          v_loaded := true |}, [])
  end.

Definition Get (vs : t) : any := AnyInt (v_value vs).
Definition Loaded (vs : t) : bool := v_loaded vs.
Definition Required (vs : t) : bool := v_req vs.
End intVar.

Module int64Var.
Record t : Type := mk {
  v_name : string;
  v_value : Z;
  v_req : bool;
  v_loaded : bool
}.

Definition createInt64Var (name : string) (req : bool) : t :=
  {| v_name := name; v_value := 0; v_req := req; v_loaded := false |}.

Definition ArgType (vs : t) : FlagArgType := Int64Flag.
Definition Name (vs : t) : string := v_name vs.

Definition Set_ (vs : t) (value : string) : t * list string :=
  match strconv.ParseInt value with
  | None => (vs, [Println_text "Error seting integer flag variable"])
  | Some sv =>
      ({| v_name := v_name vs; v_value := sv; v_req := v_req vs;
          v_loaded := true |}, [])
  end.

Definition Get (vs : t) : any := AnyInt64 (v_value vs).
Definition Loaded (vs : t) : bool := v_loaded vs.
Definition Required (vs : t) : bool := v_req vs.
End int64Var.

Module floatVar.
Record t : Type := mk {
  v_name : string;
  v_value : strconv.float64;
  v_req : bool;
  v_loaded : bool
}.

Definition createFloatVar (name : string) (req : bool) : t :=
  {| v_name := name; v_value := S754_zero false; v_req := req;
     v_loaded := false |}.

Definition ArgType (vs : t) : FlagArgType := FloatFlag.
Definition Name (vs : t) : string := v_name vs.

Definition Set_ `{!strconv.FloatParser} (vs : t) (value : string)
  : t * list string :=
  match strconv.ParseFloat value with
  | None => (vs, [Println_text "Error setting float in cmdline"])
  | Some v =>
      ({| v_name := v_name vs; v_value := v; v_req := v_req vs;
          v_loaded := true |}, [])
  end.

Definition Get (vs : t) : any := AnyFloat64 (v_value vs).
Definition Loaded (vs : t) : bool := v_loaded vs.
Definition Required (vs : t) : bool := v_req vs.
End floatVar.

Module stringVar.
Record t : Type := mk {
  v_name : string;
  v_value : string;
  v_req : bool;
  v_loaded : bool
}.

Definition createStringVar (name : string) (req : bool) : t :=
  {| v_name := name; v_value := ""; v_req := req; v_loaded := false |}.

Definition ArgType (vs : t) : FlagArgType := StringFlag.
Definition Name (vs : t) : string := v_name vs.

Definition Set_ (vs : t) (value : string) : t * list string :=
  ({| v_name := v_name vs; v_value := value; v_req := v_req vs;
      v_loaded := true |}, []).

Definition Get (vs : t) : any := AnyString (v_value vs).
Definition Loaded (vs : t) : bool := v_loaded vs.
Definition Required (vs : t) : bool := v_req vs.
End stringVar.

Module boolVar.
Record t : Type := mk {
  v_name : string;
  v_value : bool;
  v_req : bool;
  v_loaded : bool
}.

Definition createBoolVar (name : string) (req : bool) : t :=
  {| v_name := name; v_value := false; v_req := req; v_loaded := false |}.

Definition ArgType (vs : t) : FlagArgType := BoolFlag.
Definition Name (vs : t) : string := v_name vs.

Definition Set_ (vs : t) (value : string) : t * list string :=
  let v :=
    if String.eqb value "T" || String.eqb value "t"
       || String.eqb value "True" || String.eqb value "true"
    then true else false in
  ({| v_name := v_name vs; v_value := v; v_req := v_req vs;
      v_loaded := true |}, []).

Definition Get (vs : t) : any := AnyBool (v_value vs).
Definition Loaded (vs : t) : bool := v_loaded vs.
Definition Required (vs : t) : bool := v_req vs.
End boolVar.

(** ** The [arg] interface

    A value of interface type [arg] in the registry is a pointer to one of
    the five slot structs; the methods dispatch on which one it is. *)

Inductive arg : Type :=
| IntArg (vs : intVar.t)
| Int64Arg (vs : int64Var.t)
| FloatArg (vs : floatVar.t)
| StringArg (vs : stringVar.t)
| BoolArg (vs : boolVar.t).

Definition ArgType (a : arg) : FlagArgType :=
  match a with
  | IntArg vs => intVar.ArgType vs
  | Int64Arg vs => int64Var.ArgType vs
  | FloatArg vs => floatVar.ArgType vs
  | StringArg vs => stringVar.ArgType vs
  | BoolArg vs => boolVar.ArgType vs
  end.

Definition Name (a : arg) : string :=
  match a with
  | IntArg vs => intVar.Name vs
  | Int64Arg vs => int64Var.Name vs
  | FloatArg vs => floatVar.Name vs
  | StringArg vs => stringVar.Name vs
  | BoolArg vs => boolVar.Name vs
  end.

Definition Get (a : arg) : any :=
  match a with
  | IntArg vs => intVar.Get vs
  | Int64Arg vs => int64Var.Get vs
  | FloatArg vs => floatVar.Get vs
  | StringArg vs => stringVar.Get vs
  | BoolArg vs => boolVar.Get vs
  end.

Definition Loaded (a : arg) : bool :=
  match a with
  | IntArg vs => intVar.Loaded vs
  | Int64Arg vs => int64Var.Loaded vs
  | FloatArg vs => floatVar.Loaded vs
  | StringArg vs => stringVar.Loaded vs
  | BoolArg vs => boolVar.Loaded vs
  end.

Definition Required (a : arg) : bool :=
  match a with
  | IntArg vs => intVar.Required vs
  | Int64Arg vs => int64Var.Required vs
  | FloatArg vs => floatVar.Required vs
  | StringArg vs => stringVar.Required vs
  | BoolArg vs => boolVar.Required vs
  end.

Definition Set_ `{!strconv.FloatParser} (a : arg) (value : string)
  : arg * list string :=
  match a with
  | IntArg vs => let (vs', printed) := intVar.Set_ vs value in (IntArg vs', printed)
  | Int64Arg vs => let (vs', printed) := int64Var.Set_ vs value in (Int64Arg vs', printed)
  | FloatArg vs => let (vs', printed) := floatVar.Set_ vs value in (FloatArg vs', printed)
  | StringArg vs => let (vs', printed) := stringVar.Set_ vs value in (StringArg vs', printed)
  | BoolArg vs => let (vs', printed) := boolVar.Set_ vs value in (BoolArg vs', printed)
  end.

(** ** The registry *)

Record CmdParser : Type := { vars : gmap string arg }.

Definition NewCmdParser : CmdParser := {| vars := ∅ |}.

Definition AddFlag (cp : CmdParser) (arg_type : FlagArgType) (arg_name : string)
    (arg_req : bool) : CmdParser :=
  match arg_type with
  | IntFlag =>
      {| vars := <[arg_name := IntArg (intVar.createIntVar arg_name arg_req)]> (vars cp) |}
  | Int64Flag =>
      {| vars := <[arg_name := Int64Arg (int64Var.createInt64Var arg_name arg_req)]> (vars cp) |}
  | FloatFlag =>
      {| vars := <[arg_name := FloatArg (floatVar.createFloatVar arg_name arg_req)]> (vars cp) |}
  | StringFlag =>
      {| vars := <[arg_name := StringArg (stringVar.createStringVar arg_name arg_req)]> (vars cp) |}
  | BoolFlag =>
      {| vars := <[arg_name := BoolArg (boolVar.createBoolVar arg_name arg_req)]> (vars cp) |}
  | None_ => cp
  end.

(** ** Calls: how they end, and the state they run in *)

Inductive panicValue : Type :=
| NilDereference
| IndexOutOfRange (index len : nat)
| SliceOutOfRange
| PanicValue (msg : string).

(** [OutOfFuel] is the model's own: a loop given too few iterations. *)
Inductive outcome (A : Type) : Type :=
| Returns (a : A)
| Panics (v : panicValue)
| Exits (code : Z)
| OutOfFuel.

Arguments Returns {A} a.
Arguments Panics {A} v.
Arguments Exits {A} code.
Arguments OutOfFuel {A}.

(** The parser the method is called on and the standard output so far. *)
Record World : Type := { parser : CmdParser; stdout : list string }.

Definition M (A : Type) : Type := World -> outcome A * World.

Definition ret {A : Type} (a : A) : M A := fun w => (Returns a, w).

Definition bind {A B : Type} (m : M A) (k : A -> M B) : M B :=
  fun w =>
    match m w with
    | (Returns a, w') => k a w'
    | (Panics v, w') => (Panics v, w')
    | (Exits code, w') => (Exits code, w')
    | (OutOfFuel, w') => (OutOfFuel, w')
    end.

Declare Scope go_scope.
Delimit Scope go_scope with go.
Notation "x <- m ;; k" := (bind m (fun x => k))
  (at level 100, m at next level, right associativity) : go_scope.
Notation "m ;;; k" := (bind m (fun _ => k))
  (at level 100, right associativity) : go_scope.
Local Open Scope go_scope.

Definition panic {A : Type} (v : panicValue) : M A := fun w => (Panics v, w).

Definition exit {A : Type} (code : Z) : M A := fun w => (Exits code, w).

Definition lift {A : Type} (o : outcome A) : M A := fun w => (o, w).

(** Writing [text] to standard output. *)
Definition print (text : string) : M unit :=
  fun w => (Returns tt, {| parser := parser w; stdout := stdout w ++ [text] |}).

Definition Println (s : string) : M unit := print (Println_text s).

Definition getVars : M (gmap string arg) :=
  fun w => (Returns (vars (parser w)), w).

(** [s[i]] on a slice of strings: out of range it panics. *)
Definition index (s : list string) (i : nat) : M string :=
  match s !! i with
  | Some x => ret x
  | None => panic (IndexOutOfRange i (length s))
  end.

(** A [for _, x := range l] loop. *)
Fixpoint forRange {A : Type} (l : list A) (body : A -> M unit) : M unit :=
  match l with
  | [] => ret tt
  | x :: rest => body x ;;; forRange rest body
  end.

Record flagValue : Type := { flag : string; value : string }.

(** [string (b)] for a byte [b]: the UTF-8 text of the code point [b], one
    byte below 128 and two from there on; it is never empty. *)
Definition stringOfByte (b : ascii) : string :=
  let n := N_of_ascii b in
  if (n <? 128)%N then String b EmptyString
  else String (ascii_of_N (192 + n / 64))
         (String (ascii_of_N (128 + n mod 64)) EmptyString).

Definition tab : string := String "009"%char EmptyString.

(** The scan for ['#'] in [ParseFromFile], from position [idx] with
    [whitespace] bytes counted so far; the result is [nxt_line] as the
    [for] statement leaves it. *)
Fixpoint commentLoop (fuel : nat) (nxt_line : string) (idx whitespace : nat)
  : outcome string :=
  if negb (idx <? String.length nxt_line)%nat then Returns nxt_line
  else
    match fuel with
    | O => OutOfFuel
    | S fuel' =>
        match String.get idx nxt_line with
        | None => Panics (IndexOutOfRange idx (String.length nxt_line))
        | Some b =>
            if String.eqb (stringOfByte b) "" || String.eqb (stringOfByte b) tab
            then commentLoop fuel' nxt_line (idx + 1) (whitespace + 1)
            else if String.eqb (stringOfByte b) "#"
            then
              if (whitespace =? idx)%nat then Returns ""
              else if (idx <? whitespace)%nat then Panics SliceOutOfRange
              else Returns (String.substring whitespace (idx - whitespace) nxt_line)
            else commentLoop fuel' nxt_line (idx + 1) whitespace
        end
    end.

Section Parser.
Context `{!strconv.FloatParser}.

(** [cp.vars[name].Set (value)]: on a missing key the map yields the nil
    interface value, and the method call on it panics. *)
Definition SetVar (name value : string) : M unit :=
  fun w =>
    match vars (parser w) !! name with
    | None => (Panics NilDereference, w)
    | Some a =>
        let (a', printed) := Set_ a value in
        (Returns tt,
         {| parser := {| vars := <[name := a']> (vars (parser w)) |};
            stdout := stdout w ++ printed |})
    end.

Definition GetVar (cp : CmdParser) (name : string) : outcome any :=
  match vars cp !! name with
  | Some gv => Returns (Get gv)
  | None =>
      Panics (PanicValue
        ("CmdParser.GetVar given unrecognized variable name " +:+ name +:+ newline))
  end.

Definition IsFlag (cp : CmdParser) (name : string) : bool :=
  match vars cp !! name with
  | Some _ => true
  | None => false
  end.

(** After the [IsFlag] test the lookup finds the slot. *)
Definition IsLoaded (cp : CmdParser) (name : string) : bool :=
  if negb (IsFlag cp name) then false
  else match vars cp !! name with
       | Some a => Loaded a
       | None => false
       end.

Definition IsRequired (cp : CmdParser) (name : string) : bool :=
  if negb (IsFlag cp name) then false
  else match vars cp !! name with
       | Some a => Required a
       | None => false
       end.

(** The first loop of [ParseFromString], entered at position [idx] with the
    pairs [cmdVar] read so far.  It yields [Some] of all the pairs when the
    loop ends, and [None] when the function returns false from inside it. *)
Fixpoint scanLoop (fuel : nat) (pieces : list string) (idx : nat)
    (cmdVar : list flagValue) : M (option (list flagValue)) :=
  if negb (idx <? length pieces)%nat then ret (Some cmdVar)
  else
    match fuel with
    | O => lift OutOfFuel
    | S fuel' =>
        p <- index pieces idx ;;
        noValue <-
          (if strings.HasPrefix p "-"
           then if (idx =? length pieces - 1)%nat then ret true
                else q <- index pieces (idx + 1) ;; ret (strings.HasPrefix q "-")
           else ret false) ;;
        if noValue : bool
        then
          let fv := {| flag := strings.Replace1 p "-" ""; value := "true" |} in
          scanLoop fuel' pieces (idx + 1) (cmdVar ++ [fv])
        else if strings.HasPrefix p "-"
        then
          q <- index pieces (idx + 1) ;;
          let fv := {| flag := strings.Replace1 p "-" ""; value := q |} in
          scanLoop fuel' pieces (idx + 2) (cmdVar ++ [fv])
        else
          print ("formatting problem in command line from "
                 +:+ strings.Join (drop idx pieces) " " +:+ newline) ;;;
          ret None
    end.

(** The names, each after a dash, of the pairs whose flag is not in [vs]. *)
Definition undeclared (vs : gmap string arg) (cmdVar : list flagValue)
  : list string :=
  foldl (fun errMsg fv =>
           match vs !! flag fv with
           | Some _ => errMsg
           | None => errMsg ++ ["-" +:+ flag fv]
           end) [] cmdVar.

(** The names, each after a dash, of the required slots not loaded.  Go
    leaves the order of a [range] over a map open; the map's own order of
    enumeration stands for it here. *)
Definition missing (vs : gmap string arg) : list string :=
  foldl (fun errMsg '(name, value) =>
           if Required value && negb (Loaded value)
           then errMsg ++ ["-" +:+ name] else errMsg) [] (map_to_list vs).

Definition ParseFromString (cmd_string : string) : M bool :=
  let pieces := strings.Fields cmd_string in
  scanned <- scanLoop (length pieces) pieces 0 [] ;;
  match scanned with
  | None => ret false
  | Some cmdVar =>
      vs <- getVars ;;
      let errMsg := undeclared vs cmdVar in
      (if (0 <? length errMsg)%nat
       then Println ("Flags not declared in CmdParser: "
                     +:+ strings.Join errMsg "," +:+ ", ignored")
       else ret tt) ;;;
      forRange cmdVar (fun fv =>
        vs <- getVars ;;
        match vs !! flag fv with
        | Some _ => SetVar (flag fv) (value fv)
        | None => ret tt
        end) ;;;
      vs <- getVars ;;
      let errMsg := missing vs in
      if (0 <? length errMsg)%nat
      then
        (* fmt.Sprint, not Sprintf: the verb stays in the text *)
        Println ("Flags required but missing: %s" +:+ strings.Join errMsg ",") ;;;
        ret false
      else ret true
  end.

(** [os.Args[1:]] *)
Definition ParseFromCmdLine (Args : list string) : M bool :=
  match Args with
  | [] => panic SliceOutOfRange
  | _ :: rest => ParseFromString (strings.Join rest " ")
  end.

(** The body of the [for scanner.Scan ()] loop over the lines still to
    come, with the [cmd_string] built so far. *)
Fixpoint readLines (lines : list string) (cmd_string : string) : M string :=
  match lines with
  | [] => ret cmd_string
  | nxt_line :: rest =>
      if String.eqb nxt_line "" then readLines rest cmd_string
      else
        nxt_line <- lift (commentLoop (String.length nxt_line) nxt_line 0 0) ;;
        if negb (String.eqb nxt_line "")
        then
          let nxt_line := strings.Replace1 nxt_line newline "" in
          readLines rest (cmd_string +:+ " " +:+ nxt_line)
        else readLines rest cmd_string
  end.

(** [open filename] is what [os.Open] and the line scanner give for the
    file: [None] when it cannot be opened, else the lines the scanner
    delivers. *)
Definition ParseFromFile (open : string -> option (list string))
    (filename : string) : M bool :=
  match open filename with
  | None => Println "Cannot open command line file" ;;; ret false
  | Some lines =>
      cmd_string <- readLines lines "" ;;
      ParseFromString cmd_string
  end.

(** [Args] is [os.Args]. *)
Definition Parse (open : string -> option (list string)) (Args : list string)
  : M bool :=
  (if (length Args =? 1)%nat
   then Println "call requires command line arguments" ;;; exit 1
   else ret tt) ;;;
  isFile <-
    (if (1 <? length Args)%nat
     then a <- index Args 1 ;; ret (String.eqb a "-is")
     else ret false) ;;
  parsedOK <-
    (if isFile : bool
     then cmdfile <- index Args 2 ;; ParseFromFile open cmdfile
     else ParseFromCmdLine Args) ;;
  if negb parsedOK then panic (PanicValue "Command line parsing error")
  else ret true.

End Parser.

(** ** Notions the statements are written with *)

Definition isFlagToken (tok : string) : bool := strings.HasPrefix tok "-".

(** The positions of [pieces] at which the scan expects a flag token: the
    first one, the one after a flag token that takes no value, and the one
    two after a flag token that takes the next token as its value. *)
Inductive flagExpected (pieces : list string) : nat -> Prop :=
| expected_first : flagExpected pieces 0
| expected_after_flag idx tok :
    flagExpected pieces idx ->
    pieces !! idx = Some tok -> isFlagToken tok = true ->
    (idx = (length pieces - 1)%nat
     \/ exists nxt, pieces !! (idx + 1)%nat = Some nxt /\ isFlagToken nxt = true) ->
    flagExpected pieces (idx + 1)
| expected_after_value idx tok nxt :
    flagExpected pieces idx ->
    pieces !! idx = Some tok -> isFlagToken tok = true ->
    pieces !! (idx + 1)%nat = Some nxt -> isFlagToken nxt = false ->
    flagExpected pieces (idx + 2).

(** An input is well formed when a flag token stands wherever one is
    expected. *)
Definition wellFormed (pieces : list string) : Prop :=
  forall idx tok,
    flagExpected pieces idx -> pieces !! idx = Some tok -> isFlagToken tok = true.

(** The same, as a test on the pieces still to read. *)
Fixpoint wellFormedb (rest : list string) : bool :=
  match rest with
  | [] => true
  | tok :: rest1 =>
      isFlagToken tok &&
      match rest1 with
      | [] => true
      | nxt :: rest2 => if isFlagToken nxt then wellFormedb rest1 else wellFormedb rest2
      end
  end.

(** A token without its first byte when that is a dash. *)
Definition stripDash (tok : string) : string :=
  match tok with
  | String c name => if Ascii.eqb c "-" then name else tok
  | EmptyString => tok
  end.

(** The pair a flag token at position [i] stands for: its name, with the
    next token as the value unless there is none or it is a flag token too. *)
Definition pairAt (pieces : list string) (i : nat) : option flagValue :=
  match pieces !! i with
  | Some tok =>
      if isFlagToken tok
      then Some {| flag := stripDash tok;
                   value := match pieces !! (i + 1)%nat with
                            | Some nxt => if isFlagToken nxt then "true" else nxt
                            | None => "true"
                            end |}
      else None
  | None => None
  end.

Definition flagPairs (pieces : list string) : list flagValue :=
  omap (pairAt pieces) (seq 0 (length pieces)).

(** The value a kind's [Set] decodes from [raw], if any. *)
Definition decode `{!strconv.FloatParser} (kind : FlagArgType) (raw : string)
  : option any :=
  match kind with
  | IntFlag => AnyInt <$> strconv.ParseInt raw
  | Int64Flag => AnyInt64 <$> strconv.ParseInt raw
  | FloatFlag => AnyFloat64 <$> strconv.ParseFloat raw
  | StringFlag => Some (AnyString raw)
  | BoolFlag => Some (AnyBool (bool_decide (raw ∈ ["T"; "t"; "True"; "true"])))
  | None_ => None
  end.

Definition zeroValue (kind : FlagArgType) : any :=
  match kind with
  | IntFlag => AnyInt 0
  | Int64Flag => AnyInt64 0
  | FloatFlag => AnyFloat64 (S754_zero false)
  | StringFlag => AnyString ""
  | BoolFlag => AnyBool false
  | None_ => AnyBool false
  end.

(** One turn of the loop that sets the variables, on the registry and the
    output. *)
Definition applyPair `{!strconv.FloatParser}
    (st : gmap string arg * list string) (fv : flagValue)
  : gmap string arg * list string :=
  match st.1 !! flag fv with
  | Some a =>
      let (a', printed) := Set_ a (value fv) in
      (<[flag fv := a']> st.1, st.2 ++ printed)
  | None => st
  end.

Definition applyPairs `{!strconv.FloatParser} (vs : gmap string arg)
    (out : list string) (cmdVar : list flagValue)
  : gmap string arg * list string :=
  foldl applyPair (vs, out) cmdVar.

Definition declared (vs : gmap string arg) (fv : flagValue) : bool :=
  bool_decide (is_Some (vs !! flag fv)).

Definition dashed (name : string) : string := "-" +:+ name.

(** Matching up to the case of the ASCII letters, as a case-insensitive
    reading of the boolean literals would have it. *)
Definition toLower (c : ascii) : ascii :=
  let n := N_of_ascii c in
  if ((65 <=? n) && (n <=? 90))%N then ascii_of_N (n + 32) else c.

Fixpoint equalFold (s t : string) : bool :=
  match s, t with
  | EmptyString, EmptyString => true
  | String a s', String b t' => Ascii.eqb (toLower a) (toLower b) && equalFold s' t'
  | _, _ => false
  end.

Definition matchesTrueFold (raw : string) : bool :=
  existsb (equalFold raw) ["T"; "t"; "True"; "true"].

(** The part of a line before its first ['#'], and the number of tabs in a
    text. *)
Fixpoint beforeHash (line : string) : string :=
  match line with
  | EmptyString => EmptyString
  | String c rest => if Ascii.eqb c "#" then EmptyString else String c (beforeHash rest)
  end.

Fixpoint hasHash (line : string) : bool :=
  match line with
  | EmptyString => false
  | String c rest => Ascii.eqb c "#" || hasHash rest
  end.

Fixpoint countTabs (s : string) : nat :=
  match s with
  | EmptyString => 0
  | String c rest => ((if Ascii.eqb c "009" then 1 else 0) + countTabs rest)%nat
  end.

(** What [ParseFromString] prints about undeclared flags and about
    required flags that were not loaded. *)
Definition undeclaredReport (vs : gmap string arg) (cmdVar : list flagValue)
  : list string :=
  let errMsg := undeclared vs cmdVar in
  if (0 <? length errMsg)%nat
  then [Println_text ("Flags not declared in CmdParser: "
                      +:+ strings.Join errMsg "," +:+ ", ignored")]
  else [].

Definition missingReport (vs : gmap string arg) : list string :=
  let errMsg := missing vs in
  if (0 <? length errMsg)%nat
  then [Println_text ("Flags required but missing: %s" +:+ strings.Join errMsg ",")]
  else [].

Definition malformedReport (pieces : list string) (idx : nat) : string :=
  "formatting problem in command line from "
  +:+ strings.Join (drop idx pieces) " " +:+ newline.

(** [k] tab bytes, and whether a text is made of spaces only. *)
Fixpoint tabs (k : nat) : string :=
  match k with
  | O => EmptyString
  | S k' => String "009" (tabs k')
  end.

Fixpoint onlySpaces (s : string) : bool :=
  match s with
  | EmptyString => true
  | String c rest => Ascii.eqb c " " && onlySpaces rest
  end.

(** What the scan for the hash leaves of a line. *)
Definition keptText (line : string) : string :=
  match commentLoop (String.length line) line 0 0 with
  | Returns kept => kept
  | _ => EmptyString
  end.

Fixpoint hasByte (c : ascii) (s : string) : bool :=
  match s with
  | EmptyString => false
  | String d rest => Ascii.eqb d c || hasByte c rest
  end.

(** The slot of [name] after the pairs [cmdVar], from the slot [a]: [Set]
    with the value of each pair for that name, in order. *)
Definition slotAfter `{!strconv.FloatParser} (name : string) (a : arg)
    (cmdVar : list flagValue) : arg :=
  foldl (fun a fv => if decide (flag fv = name) then (Set_ a (value fv)).1 else a)
        a cmdVar.

(** What of a slot no [Set] changes. *)
Definition shape (a : arg) : FlagArgType * string * bool :=
  (ArgType a, Name a, Required a).

(** ** Data for the instances of the results *)

(** A decoder that knows two literals, to run the results on. *)
Definition sampleParseFloat : strconv.FloatParser :=
  fun s =>
    if String.eqb s "0" then Some (S754_zero false)
    else if String.eqb s "1" then Some (S754_finite false 4503599627370496 (-52))
    else None.

Definition sampleParser : CmdParser :=
  AddFlag (AddFlag (AddFlag NewCmdParser IntFlag "n" true) BoolFlag "verbose" false)
          StringFlag "s" false.

Definition sampleWorld : World := {| parser := sampleParser; stdout := [] |}.

(** ** Decoding and the slots *)

Lemma digits_lower_bound (s : string) (acc z : Z) :
  strconv.digits s acc = Some z -> 0 <= acc -> 0 <= z.
Proof.
  revert acc. induction s as [|c s IH]; simpl; intros acc Hd Hacc.
  - by inversion Hd; subst.
  - unfold strconv.digit in Hd.
    destruct ((48 <=? Z.of_N (N_of_ascii c)) && (Z.of_N (N_of_ascii c) <=? 57))
      eqn:Hc; [|done].
    apply andb_prop in Hc as [Hlo Hhi].
    apply Z.leb_le in Hlo. apply IH in Hd; lia.
Qed.

Lemma ParseInt_range (s : string) (sv : Z) :
  strconv.ParseInt s = Some sv -> - 2 ^ 63 <= sv < 2 ^ 63.
Proof.
  unfold strconv.ParseInt. destruct s as [|c rest]; [done|].
  set (body := if Ascii.eqb c "+" || Ascii.eqb c "-" then rest else String c rest).
  destruct body as [|c' body'] eqn:Hbody; [done|].
  destruct (strconv.digits (String c' body') 0) as [un|] eqn:Hd; [|done].
  apply digits_lower_bound in Hd; [|lia].
  destruct (Ascii.eqb c "-"); simpl.
  - destruct (2 ^ 63 <? un) eqn:Hcut; [done|].
    apply Z.ltb_ge in Hcut. intros [= <-]. lia.
  - destruct (2 ^ 63 <=? un) eqn:Hcut; [done|].
    apply Z.leb_gt in Hcut. intros [= <-]. lia.
Qed.

Lemma int_small (sv : Z) : - 2 ^ 63 <= sv < 2 ^ 63 -> int sv = sv.
Proof.
  intros Hr. unfold int, wrap, intSize.
  change (2 ^ (64 - 1)) with (2 ^ 63). change (2 ^ 64) with (2 * 2 ^ 63).
  rewrite Z.mod_small; lia.
Qed.

Lemma int_ParseInt (s : string) (sv : Z) :
  strconv.ParseInt s = Some sv -> int sv = sv.
Proof. intros Hp. by apply int_small, ParseInt_range with s. Qed.

Lemma true_literal_decide (raw : string) :
  (if String.eqb raw "T" || String.eqb raw "t" || String.eqb raw "True"
      || String.eqb raw "true" then true else false)
  = bool_decide (raw ∈ ["T"; "t"; "True"; "true"]).
Proof.
  destruct (String.eqb raw "T") eqn:H1; [apply String.eqb_eq in H1; subst; done|].
  destruct (String.eqb raw "t") eqn:H2; [apply String.eqb_eq in H2; subst; done|].
  destruct (String.eqb raw "True") eqn:H3; [apply String.eqb_eq in H3; subst; done|].
  destruct (String.eqb raw "true") eqn:H4; [apply String.eqb_eq in H4; subst; done|].
  apply String.eqb_neq in H1, H2, H3, H4. simpl.
  symmetry. apply bool_decide_eq_false. rewrite !elem_of_cons, elem_of_nil. tauto.
Qed.

(** C3 (as the code has it): [Set] on a boolean slot stores true exactly
    when the raw string is one of the four literals T, t, True, true, byte
    for byte; it stores false for every other string, the empty one and TRUE
    among them; it always marks the slot loaded, prints nothing and leaves
    the name and the required mark alone. *)
Theorem boolVar_Set_exact_literals (vs : boolVar.t) (raw : string) :
  boolVar.Set_ vs raw
  = ({| boolVar.v_name := boolVar.v_name vs;
        boolVar.v_value := bool_decide (raw ∈ ["T"; "t"; "True"; "true"]);
        boolVar.v_req := boolVar.v_req vs;
        boolVar.v_loaded := true |}, [])
  /\ boolVar.v_value (boolVar.Set_ vs "").1 = false
  /\ boolVar.v_value (boolVar.Set_ vs "TRUE").1 = false.
Proof.
  split; [|done]. unfold boolVar.Set_. by rewrite true_literal_decide.
Qed.

(** C3 (as stated) fails: TRUE matches the literal true up to case, and
    [Set] stores false for it. *)
Lemma boolVar_Set_TRUE_is_false :
  matchesTrueFold "TRUE" = true
  /\ ~ (matchesTrueFold "TRUE" = true ->
        boolVar.v_value (boolVar.Set_ (boolVar.createBoolVar "b" false) "TRUE").1 = true).
Proof. split; [reflexivity|]. intros Hf. specialize (Hf eq_refl). discriminate Hf. Qed.

Section Slots.
Context `{!strconv.FloatParser}.

Lemma CmdParser_eta (cp : CmdParser) : {| vars := vars cp |} = cp.
Proof. by destruct cp. Qed.

(** What [Set] does to a slot, by what its kind decodes from the string. *)
Lemma Set_decode_none (a : arg) (raw : string) :
  decode (ArgType a) raw = None ->
  exists diag, Set_ a raw = (a, [diag]).
Proof.
  destruct a as [vs|vs|vs|vs|vs]; simpl; [| | |done..].
  - unfold intVar.Set_. destruct (strconv.ParseInt raw); [done|]. eauto.
  - unfold int64Var.Set_. destruct (strconv.ParseInt raw); [done|]. eauto.
  - unfold floatVar.Set_. destruct (strconv.ParseFloat raw); [done|]. eauto.
Qed.

Lemma Set_decode_some (a : arg) (raw : string) (v : any) :
  decode (ArgType a) raw = Some v ->
  exists a', Set_ a raw = (a', []) /\ Get a' = v /\ Loaded a' = true
             /\ ArgType a' = ArgType a /\ Required a' = Required a.
Proof.
  destruct a as [vs|vs|vs|vs|vs]; simpl.
  - unfold intVar.Set_. destruct (strconv.ParseInt raw) as [sv|] eqn:Hp; [|done].
    intros [= <-]. eexists; repeat split. simpl. by rewrite (int_ParseInt raw).
  - unfold int64Var.Set_. destruct (strconv.ParseInt raw) as [sv|]; [|done].
    intros [= <-]. eexists; by repeat split.
  - unfold floatVar.Set_. destruct (strconv.ParseFloat raw) as [x|]; [|done].
    intros [= <-]. eexists; by repeat split.
  - intros [= <-]. eexists; by repeat split.
  - intros [= <-]. unfold boolVar.Set_. rewrite true_literal_decide.
    eexists; by repeat split.
Qed.

Lemma Set_keeps (a : arg) (raw : string) :
  ArgType (Set_ a raw).1 = ArgType a /\ Required (Set_ a raw).1 = Required a
  /\ Name (Set_ a raw).1 = Name a
  /\ (Loaded a = true -> Loaded (Set_ a raw).1 = true).
Proof.
  destruct a as [vs|vs|vs|vs|vs]; simpl.
  - unfold intVar.Set_. by destruct (strconv.ParseInt raw).
  - unfold int64Var.Set_. by destruct (strconv.ParseInt raw).
  - unfold floatVar.Set_. by destruct (strconv.ParseFloat raw).
  - done.
  - done.
Qed.

(** C5: on an [int], [int64] or [float64] slot, a raw string that does not
    decode leaves the slot as it was, value and loaded mark included, and
    prints one diagnostic; a raw string that decodes stores the decoded
    value and marks the slot loaded.  In both cases [SetVar] returns
    normally with nothing for the caller to test. *)
Theorem Set_numeric_decode_policy (raw : string) :
  (strconv.ParseInt raw = None ->
     (forall vs, intVar.Set_ vs raw
                 = (vs, [Println_text "Error setting integer flag variable"]))
     /\ (forall vs, int64Var.Set_ vs raw
                    = (vs, [Println_text "Error seting integer flag variable"])))
  /\ (forall sv, strconv.ParseInt raw = Some sv ->
     (forall vs, intVar.Set_ vs raw
                 = ({| intVar.v_name := intVar.v_name vs; intVar.v_value := sv;
                       intVar.v_req := intVar.v_req vs;
                       intVar.v_loaded := true |}, []))
     /\ (forall vs, int64Var.Set_ vs raw
                    = ({| int64Var.v_name := int64Var.v_name vs;
                          int64Var.v_value := sv;
                          int64Var.v_req := int64Var.v_req vs;
                          int64Var.v_loaded := true |}, [])))
  /\ (strconv.ParseFloat raw = None ->
      forall vs, floatVar.Set_ vs raw
                 = (vs, [Println_text "Error setting float in cmdline"]))
  /\ (forall v, strconv.ParseFloat raw = Some v ->
      forall vs, floatVar.Set_ vs raw
                 = ({| floatVar.v_name := floatVar.v_name vs;
                       floatVar.v_value := v;
                       floatVar.v_req := floatVar.v_req vs;
                       floatVar.v_loaded := true |}, []))
  /\ (forall w name a,
        vars (parser w) !! name = Some a ->
        (decode (ArgType a) raw = None ->
         exists diag,
           SetVar name raw w
           = (Returns tt, {| parser := parser w; stdout := stdout w ++ [diag] |}))
        /\ (forall v, decode (ArgType a) raw = Some v ->
            exists a',
              Get a' = v /\ Loaded a' = true /\
              SetVar name raw w
              = (Returns tt, {| parser := {| vars := <[name := a']> (vars (parser w)) |};
                                stdout := stdout w |}))).
Proof.
  split; [|split; [|split; [|split; [|]]]].
  - intros Hp. split; intros vs.
    + unfold intVar.Set_. by rewrite Hp.
    + unfold int64Var.Set_. by rewrite Hp.
  - intros sv Hp. split; intros vs.
    + unfold intVar.Set_. rewrite Hp. by rewrite (int_ParseInt raw).
    + unfold int64Var.Set_. by rewrite Hp.
  - intros Hp vs. unfold floatVar.Set_. by rewrite Hp.
  - intros v Hp vs. unfold floatVar.Set_. by rewrite Hp.
  - intros w name a Ha. split.
    + intros Hd. destruct (Set_decode_none a raw Hd) as [diag Hs].
      exists diag. unfold SetVar. rewrite Ha, Hs.
      by rewrite insert_id, CmdParser_eta.
    + intros v Hd.
      destruct (Set_decode_some a raw v Hd) as (a' & Hs & Hg & Hl & _).
      exists a'. split; [done|]. split; [done|].
      unfold SetVar. rewrite Ha, Hs. by rewrite app_nil_r.
Qed.

(** C8: on a name that is not registered both [SetVar] and [GetVar] panic,
    and the registry and the output stay as they were; on a registered name
    [GetVar] returns what the slot holds. *)
Theorem unregistered_lookup_panics (cp : CmdParser) (name : string) :
  (vars cp !! name = None ->
     (forall value out,
         SetVar name value {| parser := cp; stdout := out |}
         = (Panics NilDereference, {| parser := cp; stdout := out |}))
     /\ GetVar cp name
        = Panics (PanicValue ("CmdParser.GetVar given unrecognized variable name "
                              +:+ name +:+ newline)))
  /\ (forall a, vars cp !! name = Some a -> GetVar cp name = Returns (Get a)).
Proof.
  split.
  - intros Hn. split.
    + intros value out. unfold SetVar. simpl. by rewrite Hn.
    + unfold GetVar. by rewrite Hn.
  - intros a Ha. unfold GetVar. by rewrite Ha.
Qed.

(** C10: with the program name and the single argument -is, [Parse] reads
    [os.Args[2]] and panics on the index; nothing is printed and no parse
    is tried. *)
Theorem Parse_is_without_file_panics
    (open : string -> option (list string)) (prog : string) (w : World) :
  Parse open [prog; "-is"] w = (Panics (IndexOutOfRange 2 2), w).
Proof.
  unfold Parse. unfold bind at 1.
  change (length [prog; "-is"] =? 1)%nat with false. unfold ret at 1.
  unfold bind at 1. unfold bind at 1.
  change (1 <? length [prog; "-is"])%nat with true.
  unfold bind at 1. unfold index at 1. cbn [lookup list_lookup]. unfold ret at 1 2.
  change (String.eqb "-is" "-is") with true.
  unfold bind at 1. unfold index at 1. by cbn [lookup list_lookup length].
Qed.

End Slots.

(** ** The scan of the pieces *)

Lemma substring_all (s : string) : String.substring 0 (String.length s) s = s.
Proof. induction s as [|c s IH]; simpl; [done|by rewrite IH]. Qed.

Lemma prefix_empty (s : string) : String.prefix "" s = true.
Proof. by destruct s. Qed.

Lemma flag_token_dash (tok : string) :
  isFlagToken tok = true ->
  tok = "-" +:+ stripDash tok /\ strings.Replace1 tok "-" "" = stripDash tok.
Proof.
  unfold isFlagToken, strings.HasPrefix. destruct tok as [|c name]; [done|].
  cbn [String.prefix]. destruct (ascii_dec "-" c) as [<-|Hc]; [|done].
  intros _. split; [done|]. cbn [strings.Replace1 String.prefix].
  destruct (ascii_dec "-" "-") as [_|Hc]; [|congruence].
  rewrite prefix_empty. cbn. rewrite Nat.sub_0_r. by rewrite substring_all.
Qed.

Lemma scanLoop_unfold (fuel : nat) (pieces : list string) (idx : nat)
    (cmdVar : list flagValue) :
  scanLoop (S fuel) pieces idx cmdVar
  = if negb (idx <? length pieces)%nat then ret (Some cmdVar)
    else
      (p <- index pieces idx ;;
       noValue <-
         (if strings.HasPrefix p "-"
          then if (idx =? length pieces - 1)%nat then ret true
               else q <- index pieces (idx + 1) ;; ret (strings.HasPrefix q "-")
          else ret false) ;;
       if noValue : bool
       then
         let fv := {| flag := strings.Replace1 p "-" ""; value := "true" |} in
         scanLoop fuel pieces (idx + 1) (cmdVar ++ [fv])
       else if strings.HasPrefix p "-"
       then
         q <- index pieces (idx + 1) ;;
         let fv := {| flag := strings.Replace1 p "-" ""; value := q |} in
         scanLoop fuel pieces (idx + 2) (cmdVar ++ [fv])
       else
         print ("formatting problem in command line from "
                +:+ strings.Join (drop idx pieces) " " +:+ newline) ;;;
         ret None)%go.
Proof. reflexivity. Qed.

Lemma scanLoop_done (fuel : nat) (pieces : list string) (idx : nat)
    (cmdVar : list flagValue) (w : World) :
  (length pieces <= idx)%nat ->
  scanLoop fuel pieces idx cmdVar w = (Returns (Some cmdVar), w).
Proof.
  intros Hlen. assert (negb (idx <? length pieces)%nat = true) as Hc.
  { apply negb_true_iff, Nat.ltb_ge. lia. }
  destruct fuel; simpl; by rewrite Hc.
Qed.

Lemma scanLoop_in_range (pieces : list string) (idx : nat) (tok : string) :
  pieces !! idx = Some tok -> negb (idx <? length pieces)%nat = false.
Proof.
  intros Hp. apply lookup_lt_Some in Hp.
  apply negb_false_iff, Nat.ltb_lt. lia.
Qed.

Lemma scanLoop_noValue (fuel : nat) (pieces : list string) (idx : nat)
    (cmdVar : list flagValue) (w : World) (tok : string) :
  pieces !! idx = Some tok -> isFlagToken tok = true ->
  (idx = (length pieces - 1)%nat
   \/ exists nxt, pieces !! (idx + 1)%nat = Some nxt /\ isFlagToken nxt = true) ->
  scanLoop (S fuel) pieces idx cmdVar w
  = scanLoop fuel pieces (idx + 1)
      (cmdVar ++ [{| flag := stripDash tok; value := "true" |}]) w.
Proof.
  intros Hp Hflag Hnext. rewrite scanLoop_unfold, (scanLoop_in_range _ _ _ Hp).
  destruct (flag_token_dash tok Hflag) as [_ Hstrip].
  unfold bind, index. rewrite Hp. unfold ret at 1.
  unfold isFlagToken in Hflag. rewrite Hflag.
  destruct (idx =? length pieces - 1)%nat eqn:Hlast.
  - unfold ret. by rewrite Hstrip.
  - destruct Hnext as [->|(nxt & Hn & Hnf)]; [by rewrite Nat.eqb_refl in Hlast|].
    rewrite Hn. unfold ret. unfold isFlagToken in Hnf. by rewrite Hnf, Hstrip.
Qed.

Lemma scanLoop_value (fuel : nat) (pieces : list string) (idx : nat)
    (cmdVar : list flagValue) (w : World) (tok nxt : string) :
  pieces !! idx = Some tok -> isFlagToken tok = true ->
  pieces !! (idx + 1)%nat = Some nxt -> isFlagToken nxt = false ->
  scanLoop (S fuel) pieces idx cmdVar w
  = scanLoop fuel pieces (idx + 2)
      (cmdVar ++ [{| flag := stripDash tok; value := nxt |}]) w.
Proof.
  intros Hp Hflag Hn Hnf. rewrite scanLoop_unfold, (scanLoop_in_range _ _ _ Hp).
  destruct (flag_token_dash tok Hflag) as [_ Hstrip].
  unfold bind, index. rewrite Hp. unfold ret at 1.
  unfold isFlagToken in Hflag, Hnf. rewrite Hflag.
  assert ((idx =? length pieces - 1)%nat = false) as ->.
  { apply Nat.eqb_neq. apply lookup_lt_Some in Hn. lia. }
  rewrite Hn. unfold ret. by rewrite ?Hnf, ?Hn, ?Hstrip.
Qed.

Lemma scanLoop_malformed (fuel : nat) (pieces : list string) (idx : nat)
    (cmdVar : list flagValue) (w : World) (tok : string) :
  pieces !! idx = Some tok -> isFlagToken tok = false ->
  scanLoop (S fuel) pieces idx cmdVar w
  = (Returns None,
     {| parser := parser w;
        stdout := stdout w ++ ["formatting problem in command line from "
                               +:+ strings.Join (drop idx pieces) " " +:+ newline] |}).
Proof.
  intros Hp Hflag. rewrite scanLoop_unfold, (scanLoop_in_range _ _ _ Hp).
  unfold bind, index. rewrite Hp. unfold ret at 1.
  unfold isFlagToken in Hflag. by rewrite Hflag.
Qed.

(** The loop run from the start comes to every position where a flag is
    expected, having used at most that many turns. *)
Lemma scanLoop_reaches (pieces : list string) (idx : nat) :
  flagExpected pieces idx ->
  exists k cmdVar, (k <= idx)%nat /\
    forall fuel w,
      scanLoop (k + fuel) pieces 0 [] w = scanLoop fuel pieces idx cmdVar w.
Proof.
  induction 1 as [|idx tok _ IH Hp Hf Hn|idx tok nxt _ IH Hp Hf Hn Hnf].
  - exists 0%nat, []. split; [lia|done].
  - destruct IH as (k & cmdVar & Hk & IH).
    exists (S k), (cmdVar ++ [{| flag := stripDash tok; value := "true" |}]).
    split; [lia|]. intros fuel w.
    replace (S k + fuel)%nat with (k + S fuel)%nat by lia.
    rewrite IH. by apply scanLoop_noValue.
  - destruct IH as (k & cmdVar & Hk & IH).
    exists (S k), (cmdVar ++ [{| flag := stripDash tok; value := nxt |}]).
    split; [lia|]. intros fuel w.
    replace (S k + fuel)%nat with (k + S fuel)%nat by lia.
    rewrite IH. by apply scanLoop_value.
Qed.

Lemma pairAt_flag (pieces : list string) (idx : nat) (tok : string) :
  pieces !! idx = Some tok -> isFlagToken tok = true ->
  pairAt pieces idx
  = Some {| flag := stripDash tok;
            value := match pieces !! (idx + 1)%nat with
                     | Some nxt => if isFlagToken nxt then "true" else nxt
                     | None => "true"
                     end |}.
Proof. intros Hp Hf. unfold pairAt. by rewrite Hp, Hf. Qed.

Lemma pairAt_value (pieces : list string) (idx : nat) (tok : string) :
  pieces !! idx = Some tok -> isFlagToken tok = false -> pairAt pieces idx = None.
Proof. intros Hp Hf. unfold pairAt. by rewrite Hp, Hf. Qed.

Lemma wellFormedb_expected (pieces : list string) (idx : nat) :
  wellFormedb pieces = true -> flagExpected pieces idx ->
  wellFormedb (drop idx pieces) = true.
Proof.
  intros Hwf. induction 1 as [|idx tok _ IH Hp Hf Hn|idx tok nxt _ IH Hp Hf Hn Hnf].
  - by rewrite drop_0.
  - rewrite (drop_S _ _ _ Hp) in IH. simpl in IH. rewrite Hf in IH. simpl in IH.
    replace (idx + 1)%nat with (S idx) by lia.
    destruct Hn as [Hlast|(nxt & Hn & Hnf)].
    + rewrite drop_ge; [done|]. apply lookup_lt_Some in Hp. lia.
    + replace (idx + 1)%nat with (S idx) in Hn by lia.
      rewrite (drop_S _ _ _ Hn) in IH |- *. by rewrite Hnf in IH.
  - rewrite (drop_S _ _ _ Hp) in IH. simpl in IH. rewrite Hf in IH. simpl in IH.
    replace (idx + 1)%nat with (S idx) in Hn by lia.
    rewrite (drop_S _ _ _ Hn) in IH. rewrite Hnf in IH.
    by replace (idx + 2)%nat with (S (S idx)) by lia.
Qed.

Lemma wellFormedb_sound (pieces : list string) :
  wellFormedb pieces = true -> wellFormed pieces.
Proof.
  intros Hwf idx tok Hexp Hp.
  pose proof (wellFormedb_expected pieces idx Hwf Hexp) as Hd.
  rewrite (drop_S _ _ _ Hp) in Hd. simpl in Hd.
  by apply andb_prop in Hd as [Hd _].
Qed.

(** Whatever the input, the loop ends: with the pairs of all the flag
    tokens, or at the first expected position that holds no flag token, with
    the report of the rest printed and nothing else changed. *)
Lemma scanLoop_total (pieces : list string) (fuel : nat) :
  forall idx cmdVar w,
    flagExpected pieces idx -> (length pieces - idx <= fuel)%nat ->
    scanLoop fuel pieces idx cmdVar w
    = (Returns (Some (cmdVar ++ omap (pairAt pieces) (seq idx (length pieces - idx)))), w)
    \/ exists bad tok,
         flagExpected pieces bad /\ pieces !! bad = Some tok
         /\ isFlagToken tok = false
         /\ scanLoop fuel pieces idx cmdVar w
            = (Returns None,
               {| parser := parser w;
                  stdout := stdout w ++ [malformedReport pieces bad] |}).
Proof.
  induction fuel as [|fuel IH]; intros idx cmdVar w Hexp Hfuel.
  { left. rewrite scanLoop_done by lia.
    replace (length pieces - idx)%nat with 0%nat by lia. simpl. by rewrite app_nil_r. }
  destruct (decide (length pieces <= idx)%nat) as [Hge|Hlt].
  { left. rewrite scanLoop_done by lia.
    replace (length pieces - idx)%nat with 0%nat by lia. simpl. by rewrite app_nil_r. }
  destruct (lookup_lt_is_Some_2 pieces idx) as [tok Hp]; [lia|].
  destruct (isFlagToken tok) eqn:Hf; cycle 1.
  { right. exists idx, tok. repeat split; try done. by apply scanLoop_malformed with tok. }
  destruct (pieces !! (idx + 1)%nat) as [nxt|] eqn:Hn.
  - destruct (isFlagToken nxt) eqn:Hnf.
    + rewrite (scanLoop_noValue _ _ _ _ _ tok) by eauto.
      destruct (IH (idx + 1)%nat
                  (cmdVar ++ [{| flag := stripDash tok; value := "true" |}]) w)
        as [Hok|Hbad]; [eapply expected_after_flag; eauto|lia| |by right].
      left. rewrite Hok.
      replace (length pieces - idx)%nat with (S (length pieces - (idx + 1)))%nat by lia.
      simpl. rewrite (pairAt_flag _ _ tok), Hn, Hnf by done.
      rewrite <- app_assoc. simpl. by rewrite Nat.add_1_r.
    + rewrite (scanLoop_value _ _ _ _ _ tok nxt) by done.
      apply lookup_lt_Some in Hn as Hlen.
      destruct (IH (idx + 2)%nat
                  (cmdVar ++ [{| flag := stripDash tok; value := nxt |}]) w)
        as [Hok|Hbad]; [eapply expected_after_value; eauto|lia| |by right].
      left. rewrite Hok.
      replace (length pieces - idx)%nat
        with (S (S (length pieces - (idx + 2))))%nat by lia.
      simpl. rewrite (pairAt_flag _ _ tok), Hn, Hnf by done.
      replace (S idx) with (idx + 1)%nat by lia.
      rewrite (pairAt_value _ _ nxt) by done.
      rewrite <- app_assoc. simpl.
      by replace (S (idx + 1)) with (idx + 2)%nat by lia.
  - left. apply lookup_ge_None in Hn.
    rewrite (scanLoop_noValue _ _ _ _ _ tok); [|done..|left; lia].
    rewrite scanLoop_done by lia.
    replace (length pieces - idx)%nat with 1%nat by lia.
    simpl. rewrite (pairAt_flag _ _ tok) by done.
    apply lookup_ge_None in Hn. by rewrite Hn.
Qed.

Lemma scanLoop_pieces (pieces : list string) (w : World) :
  scanLoop (length pieces) pieces 0 [] w = (Returns (Some (flagPairs pieces)), w)
  \/ exists bad tok,
       flagExpected pieces bad /\ pieces !! bad = Some tok
       /\ isFlagToken tok = false
       /\ scanLoop (length pieces) pieces 0 [] w
          = (Returns None,
             {| parser := parser w;
                stdout := stdout w ++ [malformedReport pieces bad] |}).
Proof.
  destruct (scanLoop_total pieces (length pieces) 0 [] w) as [Hok|Hbad];
    [constructor|lia| |by right].
  left. rewrite Hok. unfold flagPairs. by rewrite Nat.sub_0_r.
Qed.

Lemma scanLoop_malformed_at (pieces : list string) (w : World) (idx : nat)
    (tok : string) :
  flagExpected pieces idx -> pieces !! idx = Some tok -> isFlagToken tok = false ->
  scanLoop (length pieces) pieces 0 [] w
  = (Returns None,
     {| parser := parser w; stdout := stdout w ++ [malformedReport pieces idx] |}).
Proof.
  intros Hexp Hp Hf.
  destruct (scanLoop_reaches pieces idx Hexp) as (k & cmdVar & Hk & Hrun).
  apply lookup_lt_Some in Hp as Hlen.
  replace (length pieces) with (k + S (length pieces - k - 1))%nat at 1 by lia.
  rewrite Hrun. by apply scanLoop_malformed with tok.
Qed.

Lemma scanLoop_wellFormed_pieces (pieces : list string) (w : World) :
  wellFormed pieces ->
  scanLoop (length pieces) pieces 0 [] w = (Returns (Some (flagPairs pieces)), w).
Proof.
  intros Hwf. destruct (scanLoop_pieces pieces w) as [Hok|Hbad]; [done|].
  destruct Hbad as (bad & tok & Hexp & Hp & Hf & _).
  rewrite (Hwf bad tok Hexp Hp) in Hf. discriminate Hf.
Qed.

Lemma ParseFromString_stops `{!strconv.FloatParser}
    (s : string) (w : World) (idx : nat) (tok : string) :
  flagExpected (strings.Fields s) idx ->
  strings.Fields s !! idx = Some tok ->
  isFlagToken tok = false ->
  ParseFromString s w
  = (Returns false,
     {| parser := parser w;
        stdout := stdout w ++ [malformedReport (strings.Fields s) idx] |}).
Proof.
  intros Hexp Hp Hf. unfold ParseFromString, bind.
  by rewrite (scanLoop_malformed_at _ w idx tok).
Qed.

(** C1: when a token that does not begin with a dash stands where a flag
    token is expected, [ParseFromString] returns false, prints the report
    of the pieces from that token on, and leaves the registry as it was. *)
Theorem ParseFromString_malformed `{!strconv.FloatParser}
    (s : string) (w : World) (idx : nat) (tok : string) :
  flagExpected (strings.Fields s) idx ->
  strings.Fields s !! idx = Some tok ->
  isFlagToken tok = false ->
  ParseFromString s w
  = (Returns false,
     {| parser := parser w;
        stdout := stdout w ++ ["formatting problem in command line from "
                               +:+ strings.Join (drop idx (strings.Fields s)) " "
                               +:+ newline] |}).
Proof.
  intros Hexp Hp Hf. set (pieces := strings.Fields s) in *.
  destruct (scanLoop_reaches pieces idx Hexp) as (k & cmdVar & Hk & Hrun).
  apply lookup_lt_Some in Hp as Hlen.
  unfold ParseFromString, bind. fold pieces.
  replace (length pieces) with (k + S (length pieces - k - 1))%nat at 1 by lia.
  rewrite Hrun. by rewrite (scanLoop_malformed _ _ _ _ _ tok).
Qed.

(** C6: a flag token is its name after exactly one dash, so that --name
    names -name.  Where the loop meets it as the last token or before
    another flag token, it adds the pair of the name and the text true and
    goes on one position further; otherwise it adds the pair of the name and
    the next token and goes on two positions further.  On a well-formed
    input the pairs read are those of all the flag tokens, in order. *)
Theorem flag_token_pairing (pieces : list string) (idx : nat) (tok : string) :
  pieces !! idx = Some tok ->
  isFlagToken tok = true ->
  (tok = "-" +:+ stripDash tok /\ strings.Replace1 tok "-" "" = stripDash tok)
  /\ strings.Replace1 "--name" "-" "" = "-name"
  /\ (forall fuel cmdVar w,
        idx = (length pieces - 1)%nat
        \/ (exists nxt, pieces !! (idx + 1)%nat = Some nxt /\ isFlagToken nxt = true) ->
        scanLoop (S fuel) pieces idx cmdVar w
        = scanLoop fuel pieces (idx + 1)
            (cmdVar ++ [{| flag := stripDash tok; value := "true" |}]) w)
  /\ (forall fuel cmdVar w nxt,
        pieces !! (idx + 1)%nat = Some nxt -> isFlagToken nxt = false ->
        scanLoop (S fuel) pieces idx cmdVar w
        = scanLoop fuel pieces (idx + 2)
            (cmdVar ++ [{| flag := stripDash tok; value := nxt |}]) w)
  /\ (wellFormed pieces ->
      (forall w,
          scanLoop (length pieces) pieces 0 [] w
          = (Returns (Some (flagPairs pieces)), w))
      /\ exists raw,
           {| flag := stripDash tok; value := raw |} ∈ flagPairs pieces
           /\ (raw = "true" \/ pieces !! (idx + 1)%nat = Some raw)).
Proof.
  intros Hp Hf. split; [by apply flag_token_dash|]. split; [reflexivity|].
  split; [intros; by apply scanLoop_noValue|].
  split; [intros; by apply scanLoop_value|].
  intros Hwf. split; [intros; by apply scanLoop_wellFormed_pieces|].
  pose proof (pairAt_flag pieces idx tok Hp Hf) as Hpair.
  eexists. split.
  - unfold flagPairs. apply list_elem_of_omap. exists idx. split; [|exact Hpair].
    apply elem_of_seq. apply lookup_lt_Some in Hp. lia.
  - destruct (pieces !! (idx + 1)%nat) as [nxt|]; [|by left].
    destruct (isFlagToken nxt); [by left|by right].
Qed.

(** ** Applying the pairs *)

Section Application.
Context `{!strconv.FloatParser}.

Lemma undeclared_from (vs : gmap string arg) (cmdVar : list flagValue)
    (errMsg : list string) :
  foldl (fun errMsg fv =>
           match vs !! flag fv with
           | Some _ => errMsg
           | None => errMsg ++ ["-" +:+ flag fv]
           end) errMsg cmdVar
  = errMsg ++ map (fun fv => dashed (flag fv))
                  (filter (fun fv => negb (declared vs fv) = true) cmdVar).
Proof.
  revert errMsg. induction cmdVar as [|fv cmdVar IH]; intros errMsg; simpl.
  - by rewrite app_nil_r.
  - rewrite IH, filter_cons.
    assert (declared vs fv = bool_decide (is_Some (vs !! flag fv))) as Hdec by done.
    destruct (vs !! flag fv) as [a|] eqn:Hl.
    + rewrite decide_False; [done|].
      rewrite Hdec, bool_decide_eq_true_2 by eauto. by intros ?.
    + rewrite decide_True.
      2:{ rewrite Hdec, bool_decide_eq_false_2; [done|]. by intros [? ?]. }
      simpl. by rewrite <- app_assoc.
Qed.

Lemma undeclared_filter (vs : gmap string arg) (cmdVar : list flagValue) :
  undeclared vs cmdVar
  = map (fun fv => dashed (flag fv))
        (filter (fun fv => negb (declared vs fv) = true) cmdVar).
Proof. unfold undeclared. by rewrite undeclared_from. Qed.

Lemma missing_from (l : list (string * arg)) (errMsg : list string) :
  foldl (fun errMsg '(name, value) =>
           if Required value && negb (Loaded value)
           then errMsg ++ ["-" +:+ name] else errMsg) errMsg l
  = errMsg ++ map (fun p => dashed p.1)
                  (filter (fun p => Required p.2 && negb (Loaded p.2) = true) l).
Proof.
  revert errMsg. induction l as [|[name a] l IH]; intros errMsg; simpl.
  - by rewrite app_nil_r.
  - rewrite IH, filter_cons. simpl.
    destruct (Required a && negb (Loaded a)) eqn:Hr.
    + rewrite decide_True by done. simpl. by rewrite <- app_assoc.
    + rewrite decide_False; [done|]. by intros ?.
Qed.

Lemma dashed_inj (n m : string) : dashed n = dashed m -> n = m.
Proof. unfold dashed. intros Hd. by injection Hd. Qed.

(** The names reported missing are those of the slots that are required and
    not loaded. *)
Lemma missing_names (vs : gmap string arg) (name : string) :
  dashed name ∈ missing vs
  <-> exists a, vs !! name = Some a /\ Required a = true /\ Loaded a = false.
Proof.
  unfold missing. rewrite missing_from. simpl. rewrite list_elem_of_fmap. split.
  - intros ([n a] & Hn & Hin). apply dashed_inj in Hn as ->.
    apply list_elem_of_filter in Hin as [Hr Hin]. simpl in *.
    apply elem_of_map_to_list in Hin. exists a. split; [done|].
    apply andb_prop in Hr as [Hr Hl]. by apply negb_true_iff in Hl.
  - intros (a & Ha & Hr & Hl). exists (name, a). split; [done|].
    apply list_elem_of_filter. simpl. split; [by rewrite Hr, Hl|].
    by apply elem_of_map_to_list.
Qed.

Lemma missing_nil (vs : gmap string arg) :
  missing vs = []
  <-> forall name a, vs !! name = Some a -> Required a = true -> Loaded a = true.
Proof.
  split.
  - intros Hm name a Ha Hr. destruct (Loaded a) eqn:Hl; [done|].
    assert (dashed name ∈ missing vs) as Hin by (apply missing_names; eauto).
    rewrite Hm in Hin. by apply elem_of_nil in Hin.
  - intros Hall. destruct (missing vs) as [|m ms] eqn:Hm; [done|].
    assert (m ∈ missing vs) as Hin by (rewrite Hm; left).
    unfold missing in Hin. rewrite missing_from in Hin. simpl in Hin.
    apply list_elem_of_fmap in Hin as ([n a] & -> & Hin).
    apply list_elem_of_filter in Hin as [Hr Hin]. simpl in *.
    apply elem_of_map_to_list in Hin.
    apply andb_prop in Hr as [Hr Hl]. apply negb_true_iff in Hl.
    rewrite (Hall n a Hin Hr) in Hl. discriminate Hl.
Qed.

Lemma applyPairs_cons (vs : gmap string arg) (out : list string)
    (fv : flagValue) (l : list flagValue) :
  applyPairs vs out (fv :: l)
  = applyPairs (applyPair (vs, out) fv).1 (applyPair (vs, out) fv).2 l.
Proof. unfold applyPairs. simpl. by destruct (applyPair (vs, out) fv). Qed.

(** One turn of the loop that sets the variables: it never panics, since
    [SetVar] is called on names found in the registry only. *)
Lemma setDeclared_applyPair (fv : flagValue) (vs : gmap string arg)
    (out : list string) :
  (vs <- getVars ;;
   match vs !! flag fv with
   | Some _ => SetVar (flag fv) (value fv)
   | None => ret tt
   end) {| parser := {| vars := vs |}; stdout := out |}
  = (Returns tt,
     {| parser := {| vars := (applyPair (vs, out) fv).1 |};
        stdout := (applyPair (vs, out) fv).2 |}).
Proof.
  unfold bind, getVars, applyPair. cbn [parser vars stdout fst snd].
  destruct (vs !! flag fv) as [a|] eqn:Hl; [|done].
  unfold SetVar. cbn [parser vars stdout]. rewrite Hl.
  by destruct (Set_ a (value fv)) as [a' printed].
Qed.

Lemma forRange_fold (body : flagValue -> M unit) :
  (forall fv vs out,
      body fv {| parser := {| vars := vs |}; stdout := out |}
      = (Returns tt,
         {| parser := {| vars := (applyPair (vs, out) fv).1 |};
            stdout := (applyPair (vs, out) fv).2 |})) ->
  forall cmdVar vs out,
    forRange cmdVar body {| parser := {| vars := vs |}; stdout := out |}
    = (Returns tt,
       {| parser := {| vars := (applyPairs vs out cmdVar).1 |};
          stdout := (applyPairs vs out cmdVar).2 |}).
Proof.
  intros Hbody. induction cmdVar as [|fv cmdVar IH]; intros vs out; [done|].
  cbn [forRange]. unfold bind. rewrite Hbody, applyPairs_cons. apply IH.
Qed.

Lemma applyPairs_app (vs : gmap string arg) (out : list string)
    (l1 l2 : list flagValue) :
  applyPairs vs out (l1 ++ l2)
  = applyPairs (applyPairs vs out l1).1 (applyPairs vs out l1).2 l2.
Proof. unfold applyPairs. rewrite foldl_app. by destruct (foldl applyPair (vs, out) l1). Qed.

(** One turn on a slot other than the pair's leaves it alone; on the pair's
    own slot it is [Set]. *)
Lemma applyPair_lookup (vs : gmap string arg) (out : list string)
    (fv : flagValue) (name : string) :
  (applyPair (vs, out) fv).1 !! name
  = match vs !! name with
    | Some a => if decide (flag fv = name) then Some (Set_ a (value fv)).1 else Some a
    | None => None
    end.
Proof.
  unfold applyPair. cbn [fst snd].
  destruct (vs !! flag fv) as [a|] eqn:Hl.
  - destruct (Set_ a (value fv)) as [a' printed] eqn:Hs. cbn [fst].
    destruct (decide (flag fv = name)) as [<-|Hne].
    + rewrite lookup_insert_eq, Hl. by rewrite Hs.
    + rewrite lookup_insert_ne by done. by destruct (vs !! name).
  - cbn [fst]. destruct (decide (flag fv = name)) as [<-|Hne].
    + by rewrite Hl.
    + by destruct (vs !! name).
Qed.

Lemma applyPair_undeclared (vs : gmap string arg) (out : list string)
    (fv : flagValue) :
  vs !! flag fv = None -> applyPair (vs, out) fv = (vs, out).
Proof. intros Hl. unfold applyPair. cbn [fst]. by rewrite Hl. Qed.

(** Applying pairs keeps the names, and for each slot its kind, its
    required mark and a loaded mark once set. *)
Lemma applyPairs_keeps (cmdVar : list flagValue) (vs : gmap string arg)
    (out : list string) (name : string) :
  match vs !! name with
  | Some a =>
      exists a', (applyPairs vs out cmdVar).1 !! name = Some a'
                 /\ ArgType a' = ArgType a /\ Required a' = Required a
                 /\ (Loaded a = true -> Loaded a' = true)
  | None => (applyPairs vs out cmdVar).1 !! name = None
  end.
Proof.
  revert vs out. induction cmdVar as [|fv cmdVar IH]; intros vs out.
  - unfold applyPairs. simpl. destruct (vs !! name) as [a|]; eauto.
  - rewrite applyPairs_cons.
    specialize (IH (applyPair (vs, out) fv).1 (applyPair (vs, out) fv).2).
    rewrite applyPair_lookup in IH.
    destruct (vs !! name) as [a|]; [|done].
    destruct (decide (flag fv = name)); [|done].
    destruct IH as (a' & Ha' & Ht & Hr & Hl).
    destruct (Set_keeps a (value fv)) as (Ht' & Hr' & _ & Hl').
    exists a'. split; [done|]. split; [congruence|]. split; [congruence|]. auto.
Qed.

(** A slot stays as it is while no pair for its name decodes. *)
Lemma applyPairs_untouched (cmdVar : list flagValue) (vs : gmap string arg)
    (out : list string) (name : string) (a : arg) :
  vs !! name = Some a ->
  (forall fv, fv ∈ cmdVar -> flag fv = name -> decode (ArgType a) (value fv) = None) ->
  (applyPairs vs out cmdVar).1 !! name = Some a.
Proof.
  revert vs out. induction cmdVar as [|fv cmdVar IH]; intros vs out Ha Hnone; [done|].
  rewrite applyPairs_cons. apply IH.
  - rewrite applyPair_lookup, Ha. destruct (decide (flag fv = name)) as [Heq|]; [|done].
    destruct (Set_decode_none a (value fv)) as [diag ->]; [|done].
    apply Hnone; [left|done].
  - intros fv' Hin. apply Hnone. by right.
Qed.

(** The last pair of a name that decodes decides the value; any pair that
    decodes marks the slot loaded. *)
Lemma applyPairs_decoded (pre post : list flagValue) (fv : flagValue)
    (vs : gmap string arg) (out : list string) (a : arg) (v : any) :
  vs !! flag fv = Some a ->
  decode (ArgType a) (value fv) = Some v ->
  exists a', (applyPairs vs out (pre ++ fv :: post)).1 !! flag fv = Some a'
    /\ Loaded a' = true
    /\ ((forall fv', fv' ∈ post -> flag fv' = flag fv ->
                     decode (ArgType a) (value fv') = None) -> Get a' = v).
Proof.
  intros Ha Hd. rewrite applyPairs_app, applyPairs_cons.
  pose proof (applyPairs_keeps pre vs out (flag fv)) as Hpre. rewrite Ha in Hpre.
  destruct Hpre as (a1 & Ha1 & Ht1 & _).
  set (st1 := applyPairs vs out pre) in *.
  pose proof (applyPair_lookup st1.1 st1.2 fv (flag fv)) as Hfv.
  rewrite Ha1, decide_True in Hfv by done.
  rewrite <- Ht1 in Hd.
  destruct (Set_decode_some a1 (value fv) v Hd) as (a2 & Hs & Hg & Hl & Ht2 & _).
  rewrite Hs in Hfv. cbn [fst] in Hfv.
  set (st2 := applyPair (st1.1, st1.2) fv) in *.
  pose proof (applyPairs_keeps post st2.1 st2.2 (flag fv)) as Hpost.
  rewrite Hfv in Hpost. destruct Hpost as (a3 & Ha3 & Ht3 & _ & Hl3).
  exists a3. split; [done|]. split; [auto|].
  intros Hnone.
  rewrite (applyPairs_untouched post st2.1 st2.2 (flag fv) a2) in Ha3.
  - by injection Ha3 as <-.
  - done.
  - intros fv' Hin Heq. rewrite Ht2, Ht1. by apply Hnone.
Qed.

(** Pairs of undeclared names change nothing: applying all the pairs is
    applying the declared ones. *)
Lemma applyPairs_declared (cmdVar : list flagValue) (vs : gmap string arg)
    (out : list string) :
  applyPairs vs out cmdVar
  = applyPairs vs out (filter (fun fv => declared vs fv = true) cmdVar).
Proof.
  assert (forall (vs0 vs1 : gmap string arg) o,
             (forall n, is_Some (vs1 !! n) <-> is_Some (vs0 !! n)) ->
             applyPairs vs1 o cmdVar
             = applyPairs vs1 o (filter (fun fv => declared vs0 fv = true) cmdVar))
    as Hgen; [|by apply Hgen].
  induction cmdVar as [|fv cmdVar IH]; intros vs0 vs1 o Hdom; [done|].
  rewrite filter_cons. unfold declared at 1.
  assert (forall n, is_Some ((applyPair (vs1, o) fv).1 !! n) <-> is_Some (vs0 !! n))
    as Hdom'.
  { intros n. rewrite applyPair_lookup, <- Hdom.
    destruct (vs1 !! n); [|done]. destruct (decide (flag fv = n)); by split; eauto. }
  destruct (decide (bool_decide (is_Some (vs0 !! flag fv)) = true)) as [Hdec|Hdec].
  - rewrite !applyPairs_cons. by apply IH.
  - rewrite applyPairs_cons.
    assert (vs1 !! flag fv = None) as Hn.
    { apply eq_None_not_Some. rewrite Hdom. intros Hs. apply Hdec.
      by apply bool_decide_eq_true_2. }
    rewrite applyPair_undeclared by done. by apply IH.
Qed.

(** What is printed while the pairs are applied comes after what was
    printed before, and does not depend on it. *)
Lemma applyPairs_output (cmdVar : list flagValue) (vs : gmap string arg)
    (out : list string) :
  applyPairs vs out cmdVar
  = ((applyPairs vs [] cmdVar).1, out ++ (applyPairs vs [] cmdVar).2).
Proof.
  revert vs out. induction cmdVar as [|fv cmdVar IH]; intros vs out.
  - unfold applyPairs. simpl. by rewrite app_nil_r.
  - rewrite !applyPairs_cons. unfold applyPair. cbn [fst snd].
    destruct (vs !! flag fv) as [a|].
    + destruct (Set_ a (value fv)) as [a' printed]. cbn [fst snd].
      rewrite (IH _ (out ++ printed)), (IH _ ([] ++ printed)). simpl.
      by rewrite app_assoc.
    + cbn [fst snd]. by rewrite (IH _ out).
Qed.

(** [ParseFromString] after a scan that read the pairs [cmdVar]. *)
Lemma ParseFromString_scanned (s : string) (w : World) (cmdVar : list flagValue) :
  scanLoop (length (strings.Fields s)) (strings.Fields s) 0 [] w
  = (Returns (Some cmdVar), w) ->
  let st := applyPairs (vars (parser w))
              (stdout w ++ undeclaredReport (vars (parser w)) cmdVar) cmdVar in
  ParseFromString s w
  = (Returns (bool_decide (missing st.1 = [])),
     {| parser := {| vars := st.1 |}; stdout := st.2 ++ missingReport st.1 |}).
Proof.
  intros Hscan st. unfold ParseFromString. unfold bind at 1. rewrite Hscan.
  unfold bind at 1. unfold getVars at 1. unfold bind at 1.
  destruct w as [[vs] out]. cbn [parser vars stdout] in *.
  assert ((if (0 <? length (undeclared vs cmdVar))%nat
           then Println ("Flags not declared in CmdParser: "
                         +:+ strings.Join (undeclared vs cmdVar) "," +:+ ", ignored")
           else ret tt) {| parser := {| vars := vs |}; stdout := out |}
          = (Returns tt, {| parser := {| vars := vs |};
                            stdout := out ++ undeclaredReport vs cmdVar |})) as ->.
  { unfold undeclaredReport. destruct (0 <? length (undeclared vs cmdVar))%nat; [done|].
    unfold ret. by rewrite app_nil_r. }
  unfold bind at 1. rewrite (forRange_fold _ setDeclared_applyPair). fold st.
  unfold bind, getVars. cbn [parser vars stdout].
  unfold missingReport. destruct (missing st.1) as [|m ms] eqn:Hm.
  - simpl. unfold ret. by rewrite app_nil_r.
  - simpl. done.
Qed.

End Application.

(** ** The parse as a whole *)

Section Parse.
Context `{!strconv.FloatParser}.

Lemma ParseFromString_wellFormed (s : string) (w : World) :
  wellFormed (strings.Fields s) ->
  let cmdVar := flagPairs (strings.Fields s) in
  let st := applyPairs (vars (parser w))
              (stdout w ++ undeclaredReport (vars (parser w)) cmdVar) cmdVar in
  ParseFromString s w
  = (Returns (bool_decide (missing st.1 = [])),
     {| parser := {| vars := st.1 |}; stdout := st.2 ++ missingReport st.1 |}).
Proof.
  intros Hwf. apply ParseFromString_scanned. by apply scanLoop_wellFormed_pieces.
Qed.

Lemma IsLoaded_lookup (vs : gmap string arg) (name : string) (a : arg) :
  vs !! name = Some a -> IsLoaded {| vars := vs |} name = Loaded a.
Proof. intros Ha. unfold IsLoaded, IsFlag. simpl. by rewrite Ha. Qed.

Lemma GetVar_lookup (vs : gmap string arg) (name : string) (a : arg) :
  vs !! name = Some a -> GetVar {| vars := vs |} name = Returns (Get a).
Proof. intros Ha. unfold GetVar. simpl. by rewrite Ha. Qed.

(** C2: on a well-formed input, when some registered flag is required and
    still not loaded after the pairs were applied, [ParseFromString] prints
    the names of those flags and returns false, and the registry it leaves
    is the one with the pairs applied: a flag given in the input with a
    value that decodes is loaded, and holds the value of its last such
    pair. *)
Theorem missing_required_keeps_applied (s : string) (w : World) :
  wellFormed (strings.Fields s) ->
  let cmdVar := flagPairs (strings.Fields s) in
  let st := applyPairs (vars (parser w))
              (stdout w ++ undeclaredReport (vars (parser w)) cmdVar) cmdVar in
  (exists name a, st.1 !! name = Some a /\ Required a = true /\ Loaded a = false) ->
  ParseFromString s w
  = (Returns false,
     {| parser := {| vars := st.1 |};
        stdout := st.2 ++ [Println_text ("Flags required but missing: %s"
                                         +:+ strings.Join (missing st.1) ",")] |})
  /\ (forall name,
        dashed name ∈ missing st.1
        <-> exists a, st.1 !! name = Some a /\ Required a = true /\ Loaded a = false)
  /\ (forall pre fv post a v,
        cmdVar = pre ++ fv :: post ->
        vars (parser w) !! flag fv = Some a ->
        decode (ArgType a) (value fv) = Some v ->
        IsLoaded {| vars := st.1 |} (flag fv) = true
        /\ ((forall fv', fv' ∈ post -> flag fv' = flag fv ->
                         decode (ArgType a) (value fv') = None) ->
            GetVar {| vars := st.1 |} (flag fv) = Returns v)).
Proof.
  intros Hwf cmdVar st (name & a & Ha & Hr & Hl).
  assert (dashed name ∈ missing st.1) as Hin by (apply missing_names; eauto).
  split; [|split].
  - rewrite (ParseFromString_wellFormed s w Hwf). fold cmdVar st.
    unfold missingReport. destruct (missing st.1) as [|m ms] eqn:Hm.
    + by apply elem_of_nil in Hin.
    + done.
  - intros n. apply missing_names.
  - intros pre fv post a0 v Hsplit Ha0 Hd.
    destruct (applyPairs_decoded pre post fv (vars (parser w))
                (stdout w ++ undeclaredReport (vars (parser w)) cmdVar) a0 v Ha0 Hd)
      as (a' & Ha' & Hl' & Hg).
    rewrite <- Hsplit in Ha'. fold st in Ha'. split.
    + by rewrite (IsLoaded_lookup _ _ a').
    + intros Hlast. rewrite (GetVar_lookup _ _ a'); [|done]. by rewrite Hg.
Qed.

(** C7: on a well-formed input with pairs whose names are not registered,
    [ParseFromString] prints one line with those names, each after a dash
    and joined by commas; the registry it leaves is the one with the pairs
    of the registered names applied, with no entry for any other name; and
    it returns true exactly when every required flag is then loaded. *)
Theorem undeclared_flags_reported_and_skipped (s : string) (w : World) :
  wellFormed (strings.Fields s) ->
  let cmdVar := flagPairs (strings.Fields s) in
  let vs := vars (parser w) in
  let unknown := filter (fun fv => negb (declared vs fv) = true) cmdVar in
  let known := filter (fun fv => declared vs fv = true) cmdVar in
  let st := applyPairs vs [] known in
  unknown <> [] ->
  ParseFromString s w
  = (Returns (bool_decide (missing st.1 = [])),
     {| parser := {| vars := st.1 |};
        stdout := stdout w
                  ++ [Println_text
                        ("Flags not declared in CmdParser: "
                         +:+ strings.Join (map (fun fv => dashed (flag fv)) unknown) ","
                         +:+ ", ignored")]
                  ++ st.2 ++ missingReport st.1 |})
  /\ (forall fv, fv ∈ unknown -> st.1 !! flag fv = None)
  /\ (forall name, is_Some (st.1 !! name) <-> is_Some (vs !! name))
  /\ (missing st.1 = []
      <-> forall name a, st.1 !! name = Some a -> Required a = true -> Loaded a = true)
  /\ (forall pre fv post a v,
        cmdVar = pre ++ fv :: post ->
        vs !! flag fv = Some a ->
        decode (ArgType a) (value fv) = Some v ->
        (forall fv', fv' ∈ post -> flag fv' = flag fv ->
                     decode (ArgType a) (value fv') = None) ->
        IsLoaded {| vars := st.1 |} (flag fv) = true
        /\ GetVar {| vars := st.1 |} (flag fv) = Returns v).
Proof.
  intros Hwf cmdVar vs unknown known st Hunknown.
  assert (forall out, applyPairs vs out cmdVar = (st.1, out ++ st.2)) as Hst.
  { intros out. rewrite applyPairs_declared, applyPairs_output. done. }
  assert (forall name, is_Some (st.1 !! name) <-> is_Some (vs !! name)) as Hdom.
  { intros name. pose proof (applyPairs_keeps known vs [] name) as Hk. fold st in Hk.
    destruct (vs !! name) as [a|].
    - destruct Hk as (a' & -> & _). by split; eauto.
    - by rewrite Hk. }
  split; [|split; [|split; [|split]]].
  - rewrite (ParseFromString_wellFormed s w Hwf). fold cmdVar vs.
    rewrite Hst. cbn [fst snd]. f_equal. f_equal.
    unfold undeclaredReport. rewrite undeclared_filter. fold unknown.
    destruct unknown as [|fv0 unknown0]; [done|]. simpl.
    by rewrite <- !app_assoc.
  - intros fv Hin. apply list_elem_of_filter in Hin as [Hdec _].
    apply eq_None_not_Some. rewrite Hdom. intros Hs.
    unfold declared in Hdec. by rewrite bool_decide_eq_true_2 in Hdec.
  - exact Hdom.
  - apply missing_nil.
  - intros pre fv post a v Hsplit Ha Hd Hlast.
    destruct (applyPairs_decoded pre post fv vs [] a v Ha Hd) as (a' & Ha' & Hl' & Hg).
    rewrite <- Hsplit, Hst in Ha'. cbn [fst] in Ha'. split.
    + by rewrite (IsLoaded_lookup _ _ a').
    + rewrite (GetVar_lookup _ _ a'); [|done]. by rewrite Hg.
Qed.

Lemma AddFlag_lookup (cp : CmdParser) (kind : FlagArgType) (name : string)
    (req : bool) :
  kind <> None_ ->
  exists a, vars (AddFlag cp kind name req) !! name = Some a
            /\ ArgType a = kind /\ Loaded a = false /\ Get a = zeroValue kind
            /\ Required a = req /\ Name a = name.
Proof.
  intros Hk. destruct kind; [..|done]; simpl; rewrite lookup_insert_eq;
    eexists; by repeat split.
Qed.

(** C9: a flag just registered by [AddFlag] is not loaded and [GetVar]
    gives the zero value of its kind for it (0, 0, +0.0, the empty string,
    false); and that is still so after a parse of any input in which no pair
    for the flag has a value that decodes. *)
Theorem unset_flag_zero (cp : CmdParser) (kind : FlagArgType) (name : string)
    (req : bool) (out : list string) (s : string) :
  kind <> None_ ->
  (forall fv, fv ∈ flagPairs (strings.Fields s) -> flag fv = name ->
              decode kind (value fv) = None) ->
  let cp0 := AddFlag cp kind name req in
  IsLoaded cp0 name = false
  /\ GetVar cp0 name = Returns (zeroValue kind)
  /\ exists ok w',
       ParseFromString s {| parser := cp0; stdout := out |} = (Returns ok, w')
       /\ IsLoaded (parser w') name = false
       /\ GetVar (parser w') name = Returns (zeroValue kind).
Proof.
  intros Hk Hnone cp0.
  destruct (AddFlag_lookup cp kind name req Hk) as (a & Ha & Ht & Hl & Hg & _).
  fold cp0 in Ha.
  assert (IsLoaded cp0 name = false /\ GetVar cp0 name = Returns (zeroValue kind))
    as [Hl0 Hg0].
  { rewrite <- (CmdParser_eta cp0).
    rewrite (IsLoaded_lookup _ _ a), (GetVar_lookup _ _ a) by done.
    by rewrite Hl, Hg. }
  split; [done|]. split; [done|].
  set (w := {| parser := cp0; stdout := out |}).
  destruct (scanLoop_pieces (strings.Fields s) w) as [Hok|Hbad].
  - rewrite (ParseFromString_scanned s w _ Hok). eexists _, _. split; [done|].
    cbn [parser].
    rewrite (IsLoaded_lookup _ _ a), (GetVar_lookup _ _ a), Hl, Hg; [done|..];
      apply applyPairs_untouched; try done; intros fv Hin Hn; rewrite Ht; auto.
  - destruct Hbad as (bad & tok & Hexp & Hp & Hf & _).
    rewrite (ParseFromString_stops s w bad tok Hexp Hp Hf).
    eexists _, _. split; [done|]. done.
Qed.

End Parse.

(** ** Comments in a flag file *)

Lemma string_length_app (s t : string) :
  String.length (s +:+ t) = (String.length s + String.length t)%nat.
Proof. induction s as [|c s IH]; simpl; [done|by rewrite IH]. Qed.

Lemma string_app_assoc (s t u : string) : (s +:+ t) +:+ u = s +:+ (t +:+ u).
Proof.
  induction s as [|c s IH]; [done|].
  change (String c ((s +:+ t) +:+ u) = String c (s +:+ (t +:+ u))). by rewrite IH.
Qed.

Lemma string_app_nil (s : string) : s +:+ "" = s.
Proof.
  induction s as [|c s IH]; [done|].
  change (String c (s +:+ "") = String c s). by rewrite IH.
Qed.

Lemma string_get_app (s t : string) (c : ascii) :
  String.get (String.length s) (s +:+ String c t) = Some c.
Proof. induction s as [|d s IH]; simpl; [done|exact IH]. Qed.

Lemma substring_app_skip (s t : string) (m : nat) :
  String.substring (String.length s) m (s +:+ t) = String.substring 0 m t.
Proof. induction s as [|c s IH]; simpl; [done|exact IH]. Qed.

Lemma substring_app_take (s t : string) :
  String.substring 0 (String.length s) (s +:+ t) = s.
Proof. induction s as [|c s IH]; simpl; [by destruct t|by rewrite IH]. Qed.

(** The three tests of the loop on [string (b)]: the first never holds, the
    others hold of the tab byte and of the hash byte only. *)
Lemma stringOfByte_tests (b : ascii) :
  String.eqb (stringOfByte b) "" = false
  /\ String.eqb (stringOfByte b) tab = Ascii.eqb b "009"
  /\ String.eqb (stringOfByte b) "#" = Ascii.eqb b "#".
Proof. destruct b as [[] [] [] [] [] [] [] []]; vm_compute; done. Qed.

Lemma strip_result_eq (k k' p p' : nat) (line : string) :
  k = k' -> p = p' ->
  (if (k =? p)%nat then Returns ""
   else Returns (String.substring k (p - k) line))
  = (if (k' =? p')%nat then Returns ""
     else Returns (String.substring k' (p' - k') line)).
Proof. by intros -> ->. Qed.

(** The scan for the hash on any line: without a hash the line stays; with
    one, the line is blank when the bytes before the first hash are all
    tabs, and else it is what lies before that hash, less as many of its
    first bytes as there are tabs before the hash. *)
Lemma commentLoop_scan (rest read : string) :
  forall (fuel whitespace : nat),
    (String.length rest <= fuel)%nat ->
    (whitespace <= String.length read)%nat ->
    commentLoop fuel (read +:+ rest) (String.length read) whitespace
    = if hasHash rest
      then
        let p := (String.length read + String.length (beforeHash rest))%nat in
        let k := (whitespace + countTabs (beforeHash rest))%nat in
        if (k =? p)%nat then Returns ""
        else Returns (String.substring k (p - k) (read +:+ rest))
      else Returns (read +:+ rest).
Proof.
  revert read. induction rest as [|c rest IH]; intros read fuel whitespace Hfuel Hws.
  - assert (negb (String.length read <? String.length (read +:+ ""))%nat = true) as Hend.
    { rewrite string_app_nil. apply negb_true_iff, Nat.ltb_ge. lia. }
    destruct fuel; simpl; by rewrite Hend.
  - destruct fuel as [|fuel]; [simpl in Hfuel; lia|].
    cbn [commentLoop].
    assert (negb (String.length read <? String.length (read +:+ String c rest))%nat
            = false) as ->.
    { apply negb_false_iff, Nat.ltb_lt. rewrite string_length_app. simpl. lia. }
    rewrite string_get_app.
    destruct (stringOfByte_tests c) as (-> & -> & ->). cbn [orb].
    assert (read +:+ String c rest = (read +:+ String c "") +:+ rest) as Hsplit.
    { by rewrite string_app_assoc. }
    assert (String.length (read +:+ String c "") = (String.length read + 1)%nat) as Hlen.
    { rewrite string_length_app. simpl. lia. }
    simpl in Hfuel.
    destruct (Ascii.eqb c "009") eqn:Htab; [|destruct (Ascii.eqb c "#") eqn:Hhash].
    + assert (Ascii.eqb c "#" = false) as Hhash.
      { apply Ascii.eqb_eq in Htab as ->. done. }
      rewrite Hsplit at 1. rewrite <- Hlen, IH by lia.
      cbn [hasHash beforeHash]. rewrite Hhash. cbn [orb countTabs String.length].
      rewrite Htab, Hlen, Hsplit. destruct (hasHash rest); [|done]. cbn zeta.
      apply strip_result_eq; lia.
    + cbn [hasHash beforeHash countTabs]. rewrite Hhash. cbn [orb]. cbn zeta.
      simpl String.length. simpl countTabs. rewrite !Nat.add_0_r.
      destruct (whitespace =? String.length read)%nat eqn:Heq; [done|].
      assert ((String.length read <? whitespace)%nat = false) as ->; [|done].
      apply Nat.ltb_ge. lia.
    + rewrite Hsplit at 1. rewrite <- Hlen, IH by lia.
      cbn [hasHash beforeHash]. rewrite Hhash. cbn [orb countTabs String.length].
      rewrite Htab, Hlen, Hsplit. destruct (hasHash rest); [|done]. cbn zeta.
      apply strip_result_eq; lia.
Qed.

Lemma commentLoop_line (line : string) :
  commentLoop (String.length line) line 0 0
  = if hasHash line
    then
      let p := String.length (beforeHash line) in
      let k := countTabs (beforeHash line) in
      if (k =? p)%nat then Returns ""
      else Returns (String.substring k (p - k) line)
    else Returns line.
Proof. apply (commentLoop_scan line "" (String.length line) 0); simpl; lia. Qed.

Lemma beforeHash_app (s t : string) :
  hasHash s = false ->
  beforeHash (s +:+ "#" +:+ t) = s /\ hasHash (s +:+ "#" +:+ t) = true.
Proof.
  induction s as [|c s IH]; simpl; [done|].
  destruct (Ascii.eqb c "#"); [done|]. simpl. intros Hs.
  destruct (IH Hs) as [-> ->]. done.
Qed.

Lemma hasHash_app (s t : string) : hasHash (s +:+ t) = hasHash s || hasHash t.
Proof. induction s as [|c s IH]; simpl; [done|]. by rewrite IH, orb_assoc. Qed.

Lemma hasHash_tabs (k : nat) : hasHash (tabs k) = false.
Proof. induction k as [|k IH]; [done|]. exact IH. Qed.

Lemma countTabs_app (s t : string) :
  countTabs (s +:+ t) = (countTabs s + countTabs t)%nat.
Proof. induction s as [|c s IH]; simpl; [done|]. rewrite IH. lia. Qed.

Lemma countTabs_tabs (k : nat) : countTabs (tabs k) = k /\ String.length (tabs k) = k.
Proof. induction k as [|k [IH1 IH2]]; [done|]. simpl. by rewrite IH1, IH2. Qed.

Lemma readLines_step (nxt_line result : string) (rest : list string)
    (cmd_string : string) (w : World) :
  nxt_line <> "" ->
  commentLoop (String.length nxt_line) nxt_line 0 0 = Returns result ->
  readLines (nxt_line :: rest) cmd_string w
  = if String.eqb result "" then readLines rest cmd_string w
    else readLines rest
           (cmd_string +:+ " " +:+ strings.Replace1 result newline "") w.
Proof.
  intros Hne Hloop. cbn [readLines].
  apply String.eqb_neq in Hne. rewrite Hne.
  unfold bind, lift. rewrite Hloop. by destruct (String.eqb result "").
Qed.

(** C4 (as the code has it): on a line whose first hash comes after [k]
    leading tabs and a text [body] without tabs, the line counts as blank
    and adds nothing to the string to parse when [body] is empty; and when
    [body] is not all spaces the line becomes [body], that is the part
    before the hash less the leading tabs, which is added after a space. *)
Theorem comment_strip_leading_tabs (k : nat) (body comment : string)
    (rest : list string) (cmd_string : string) (w : World) :
  hasHash body = false ->
  countTabs body = 0%nat ->
  let line := tabs k +:+ body +:+ "#" +:+ comment in
  beforeHash line = tabs k +:+ body
  /\ (body = "" ->
      commentLoop (String.length line) line 0 0 = Returns ""
      /\ readLines (line :: rest) cmd_string w = readLines rest cmd_string w)
  /\ (onlySpaces body = false ->
      commentLoop (String.length line) line 0 0 = Returns body
      /\ readLines (line :: rest) cmd_string w
         = readLines rest
             (cmd_string +:+ " " +:+ strings.Replace1 body newline "") w).
Proof.
  intros Hhash Htabs line.
  assert (hasHash (tabs k +:+ body) = false) as Hpre.
  { by rewrite hasHash_app, hasHash_tabs, Hhash. }
  assert (line = (tabs k +:+ body) +:+ "#" +:+ comment) as Hline.
  { unfold line. by rewrite string_app_assoc. }
  destruct (beforeHash_app (tabs k +:+ body) comment Hpre) as [Hbefore Hhas].
  rewrite <- Hline in Hbefore, Hhas.
  destruct (countTabs_tabs k) as [Hct Hlt].
  assert (line <> "") as Hne.
  { intros Hl. rewrite Hl in Hhas. discriminate Hhas. }
  assert (commentLoop (String.length line) line 0 0
          = if (k =? k + String.length body)%nat then Returns ""
            else Returns body) as Hloop.
  { rewrite commentLoop_line, Hhas, Hbefore. cbn zeta.
    rewrite countTabs_app, string_length_app, Hct, Hlt, Htabs, Nat.add_0_r.
    destruct (k =? k + String.length body)%nat; [done|].
    replace (k + String.length body - k)%nat with (String.length body) by lia.
    unfold line. rewrite <- Hlt at 1. rewrite substring_app_skip.
    by rewrite substring_app_take. }
  split; [done|]. split.
  - intros ->. simpl in Hloop. rewrite Nat.add_0_r, Nat.eqb_refl in Hloop.
    split; [done|]. by rewrite (readLines_step line "").
  - intros Hbody. assert (body <> "") as Hnb by (by intros ->).
    assert ((k =? k + String.length body)%nat = false) as Hk.
    { apply Nat.eqb_neq. destruct body; [done|]. simpl. lia. }
    rewrite Hk in Hloop. split; [done|].
    rewrite (readLines_step line body) by done.
    apply String.eqb_neq in Hnb. by rewrite Hnb.
Qed.

(** C4 (as stated) fails: of the line made of a tab, the text -n 5, a
    space, and a comment, the text before the hash starts with the tab, and
    the loop keeps it without the tab. *)
Lemma comment_strip_drops_leading_tab :
  beforeHash (tab +:+ "-n 5 # c") = tab +:+ "-n 5 "
  /\ commentLoop 9 (tab +:+ "-n 5 # c") 0 0 = Returns "-n 5 "
  /\ commentLoop 9 (tab +:+ "-n 5 # c") 0 0
     <> Returns (beforeHash (tab +:+ "-n 5 # c")).
Proof. repeat split; [reflexivity..|discriminate]. Qed.

(** Two further lines on which the loop does not do what its comments
    say: spaces before the hash are not counted as white space, because
    [string (b)] is never empty, so the line of two spaces and a comment is
    not blank; and a tab after the first text is counted like a leading one,
    so that the first byte of the text is cut. *)
Lemma comment_strip_slips :
  commentLoop 11 "  # comment" 0 0 = Returns "  "
  /\ (forall w, readLines ["  # comment"] "" w = (Returns "   ", w))
  /\ commentLoop 8 ("-n" +:+ tab +:+ "5 # c") 0 0 = Returns ("n" +:+ tab +:+ "5 ").
Proof. repeat split; reflexivity. Qed.

(** ** The loops over a file end, and the documented examples *)

Lemma commentLoop_returns (line : string) :
  exists result, commentLoop (String.length line) line 0 0 = Returns result.
Proof.
  rewrite commentLoop_line. destruct (hasHash line); [|eauto]. cbn zeta.
  destruct (countTabs (beforeHash line) =? String.length (beforeHash line))%nat; eauto.
Qed.

(** Reading the lines of a file neither panics nor prints. *)
Lemma readLines_returns (lines : list string) :
  forall cmd_string w,
    exists result, readLines lines cmd_string w = (Returns result, w).
Proof.
  induction lines as [|nxt_line lines IH]; intros cmd_string w; [by eexists|].
  destruct (decide (nxt_line = "")) as [->|Hne]; [apply IH|].
  destruct (commentLoop_returns nxt_line) as [result Hloop].
  rewrite (readLines_step nxt_line result) by done.
  destruct (String.eqb result ""); apply IH.
Qed.

Example Fields_splits :
  strings.Fields ("  -n 5" +:+ tab +:+ " -verbose" +:+ newline)
  = ["-n"; "5"; "-verbose"].
Proof. reflexivity. Qed.

Example ParseInt_decodes :
  strconv.ParseInt "-42" = Some (-42) /\ strconv.ParseInt "+7" = Some 7
  /\ strconv.ParseInt "true" = None /\ strconv.ParseInt "" = None
  /\ strconv.ParseInt "9223372036854775808" = None
  /\ strconv.ParseInt "-9223372036854775808" = Some (- 2 ^ 63).
Proof. repeat split; reflexivity. Qed.

Example parse_int_flag :
  (@ParseFromString sampleParseFloat "-n 42" sampleWorld).1 = Returns true
  /\ GetVar (parser (@ParseFromString sampleParseFloat "-n 42" sampleWorld).2) "n"
     = Returns (AnyInt 42).
Proof. by vm_compute. Qed.

Example parse_bool_without_value :
  GetVar (parser (@ParseFromString sampleParseFloat "-verbose -n 5" sampleWorld).2)
    "verbose"
  = Returns (AnyBool true).
Proof. by vm_compute. Qed.

Example parse_file_with_comment :
  @ParseFromFile sampleParseFloat
    (fun _ => Some ["-n 5 # comment"; ""; "-s hello"]) "flags" sampleWorld
  = @ParseFromString sampleParseFloat "-n 5 -s hello" sampleWorld.
Proof. by vm_compute. Qed.

Example parse_no_value_for_int :
  (@ParseFromString sampleParseFloat "-s hi -n" sampleWorld).1 = Returns false
  /\ stdout (@ParseFromString sampleParseFloat "-s hi -n" sampleWorld).2
     = [Println_text "Error setting integer flag variable";
        Println_text "Flags required but missing: %s-n"].
Proof. by vm_compute. Qed.

(** ** The results on concrete inputs *)

Lemma ParseFromString_malformed_witness :
  @ParseFromString sampleParseFloat "-n 5 foo -s hi" sampleWorld
  = (Returns false,
     {| parser := sampleParser;
        stdout := ["formatting problem in command line from foo -s hi" +:+ newline] |}).
Proof.
  apply (@ParseFromString_malformed sampleParseFloat "-n 5 foo -s hi" sampleWorld
           2 "foo").
  - apply (expected_after_value _ 0 "-n" "5"); [constructor|reflexivity..].
  - reflexivity.
  - reflexivity.
Defined.

Lemma missing_required_keeps_applied_witness :
  (@ParseFromString sampleParseFloat "-s hi -verbose" sampleWorld).1 = Returns false
  /\ IsLoaded (parser (@ParseFromString sampleParseFloat "-s hi -verbose" sampleWorld).2)
       "s" = true
  /\ GetVar (parser (@ParseFromString sampleParseFloat "-s hi -verbose" sampleWorld).2)
       "s" = Returns (AnyString "hi").
Proof.
  assert (wellFormed (strings.Fields "-s hi -verbose")) as Hwf.
  { apply wellFormedb_sound. reflexivity. }
  destruct (@missing_required_keeps_applied sampleParseFloat "-s hi -verbose"
              sampleWorld Hwf) as (Hrun & _ & Hval).
  { exists "n", (IntArg (intVar.createIntVar "n" true)). by vm_compute. }
  rewrite Hrun. cbn [fst snd parser].
  destruct (Hval [] {| flag := "s"; value := "hi" |}
              [{| flag := "verbose"; value := "true" |}]
              (StringArg (stringVar.createStringVar "s" false)) (AnyString "hi"))
    as [Hl Hg]; [reflexivity..|].
  split; [reflexivity|]. split; [exact Hl|]. apply Hg.
  intros fv' Hin Hflag. apply list_elem_of_singleton in Hin. subst fv'.
  discriminate Hflag.
Defined.

Lemma Set_numeric_decode_policy_witness :
  intVar.Set_ (intVar.createIntVar "n" true) "true"
  = (intVar.createIntVar "n" true,
     [Println_text "Error setting integer flag variable"])
  /\ int64Var.Set_ (int64Var.createInt64Var "k" false) "-42"
     = ({| int64Var.v_name := "k"; int64Var.v_value := -42;
           int64Var.v_req := false; int64Var.v_loaded := true |}, [])
  /\ @floatVar.Set_ sampleParseFloat (floatVar.createFloatVar "x" false) "one"
     = (floatVar.createFloatVar "x" false,
        [Println_text "Error setting float in cmdline"]).
Proof.
  split; [|split].
  - apply (proj1 (@Set_numeric_decode_policy sampleParseFloat "true")). reflexivity.
  - apply (proj1 (proj2 (@Set_numeric_decode_policy sampleParseFloat "-42")) (-42)).
    reflexivity.
  - apply (proj1 (proj2 (proj2 (@Set_numeric_decode_policy sampleParseFloat "one")))).
    reflexivity.
Defined.

Lemma flag_token_pairing_witness :
  "--name" = "-" +:+ "-name"
  /\ forall w,
       scanLoop 3 ["--name"; "5"; "-v"] 0 [] w
       = (Returns (Some [{| flag := "-name"; value := "5" |};
                         {| flag := "v"; value := "true" |}]), w).
Proof.
  assert (wellFormed ["--name"; "5"; "-v"]) as Hwf.
  { apply wellFormedb_sound. reflexivity. }
  destruct (flag_token_pairing ["--name"; "5"; "-v"] 0 "--name" eq_refl eq_refl)
    as ([Hname _] & _ & _ & _ & Hall).
  split; [exact Hname|]. exact (proj1 (Hall Hwf)).
Defined.

Lemma undeclared_flags_reported_and_skipped_witness :
  @ParseFromString sampleParseFloat "-x 1 -n 5 --y" sampleWorld
  = (Returns true,
     {| parser := AddFlag (AddFlag
                    {| vars := <["n" := IntArg {| intVar.v_name := "n";
                                                  intVar.v_value := 5;
                                                  intVar.v_req := true;
                                                  intVar.v_loaded := true |}]> ∅ |}
                    BoolFlag "verbose" false) StringFlag "s" false;
        stdout := [Println_text "Flags not declared in CmdParser: -x,--y, ignored"] |}).
Proof.
  assert (wellFormed (strings.Fields "-x 1 -n 5 --y")) as Hwf.
  { apply wellFormedb_sound. reflexivity. }
  destruct (@undeclared_flags_reported_and_skipped sampleParseFloat "-x 1 -n 5 --y"
              sampleWorld Hwf) as (Hrun & _).
  { by vm_compute. }
  rewrite Hrun. by vm_compute.
Defined.

Lemma unregistered_lookup_panics_witness :
  SetVar (H := sampleParseFloat) "x" "1" sampleWorld = (Panics NilDereference, sampleWorld)
  /\ GetVar sampleParser "x"
     = Panics (PanicValue ("CmdParser.GetVar given unrecognized variable name x"
                           +:+ newline))
  /\ GetVar sampleParser "n" = Returns (AnyInt 0).
Proof.
  destruct (@unregistered_lookup_panics sampleParseFloat sampleParser "x") as [Hno _].
  destruct (@unregistered_lookup_panics sampleParseFloat sampleParser "n") as [_ Hyes].
  destruct (Hno eq_refl) as [Hset Hget].
  split; [exact (Hset "1" [])|]. split; [exact Hget|].
  exact (Hyes (IntArg (intVar.createIntVar "n" true)) eq_refl).
Defined.

Lemma unset_flag_zero_witness :
  exists ok w',
    @ParseFromString sampleParseFloat "-n abc -s hi"
      {| parser := AddFlag sampleParser IntFlag "n" false; stdout := [] |}
    = (Returns ok, w')
    /\ IsLoaded (parser w') "n" = false
    /\ GetVar (parser w') "n" = Returns (AnyInt 0).
Proof.
  apply (@unset_flag_zero sampleParseFloat sampleParser IntFlag "n" false []
           "-n abc -s hi"); [discriminate|].
  intros fv Hin Hflag.
  change (fv ∈ [{| flag := "n"; value := "abc" |}; {| flag := "s"; value := "hi" |}])
    in Hin.
  apply elem_of_cons in Hin as [->|Hin]; [reflexivity|].
  apply list_elem_of_singleton in Hin. subst fv. discriminate Hflag.
Defined.

Lemma comment_strip_leading_tabs_witness :
  commentLoop 9 (tabs 2 +:+ "-n 5 " +:+ "#" +:+ "c") 0 0 = Returns "-n 5 "
  /\ commentLoop 11 (tabs 2 +:+ "" +:+ "#" +:+ " comment") 0 0 = Returns "".
Proof.
  split.
  - exact (proj1 (proj2 (proj2 (comment_strip_leading_tabs 2 "-n 5 " "c" [] ""
                                  sampleWorld eq_refl eq_refl)) eq_refl)).
  - exact (proj1 (proj1 (proj2 (comment_strip_leading_tabs 2 "" " comment" [] ""
                                  sampleWorld eq_refl eq_refl)) eq_refl)).
Defined.

(** ** Registering and setting flags *)

Section Registry.
Context `{!strconv.FloatParser}.

(** X1: a flag registered by [AddFlag] with one of the five kinds is a flag
    of that kind and name, required as asked and not loaded; every other
    name is as it was. *)
Theorem AddFlag_registers (cp : CmdParser) (kind : FlagArgType) (name : string)
    (req : bool) :
  kind <> None_ ->
  IsFlag (AddFlag cp kind name req) name = true
  /\ IsRequired (AddFlag cp kind name req) name = req
  /\ IsLoaded (AddFlag cp kind name req) name = false
  /\ (exists a, vars (AddFlag cp kind name req) !! name = Some a
                /\ ArgType a = kind /\ Name a = name)
  /\ (forall other, other <> name ->
        vars (AddFlag cp kind name req) !! other = vars cp !! other).
Proof.
  intros Hk.
  destruct (AddFlag_lookup cp kind name req Hk) as (a & Ha & Ht & Hl & _ & Hr & Hn).
  unfold IsFlag, IsRequired, IsLoaded, IsFlag. rewrite Ha. simpl.
  repeat split; try done.
  - by exists a.
  - intros other Hne. destruct kind; [..|done]; simpl; by rewrite lookup_insert_ne.
Qed.

(** X2: registering a name again replaces its slot whatever it held: the
    registry after [AddFlag] does not depend on the slot the name had
    before, so a value loaded earlier is gone. *)
Theorem AddFlag_overwrites (cp cp' : CmdParser) (kind : FlagArgType)
    (name : string) (req : bool) :
  kind <> None_ ->
  (forall other, other <> name -> vars cp !! other = vars cp' !! other) ->
  AddFlag cp kind name req = AddFlag cp' kind name req.
Proof.
  intros Hk Hsame.
  assert (forall a : arg, <[name := a]> (vars cp) = <[name := a]> (vars cp')) as Hins.
  { intros a. apply map_eq. intros n. destruct (decide (name = n)) as [<-|Hne].
    - by rewrite !lookup_insert_eq.
    - rewrite !lookup_insert_ne by done. apply Hsame. congruence. }
  destruct kind; [..|done]; simpl; by rewrite Hins.
Qed.

(** X3: [SetVar] on a registered name with a string its kind decodes does
    not panic and prints nothing; afterwards [GetVar] gives the decoded
    value and the flag is loaded, and every other slot is as it was. *)
Theorem SetVar_then_GetVar (w : World) (name raw : string) (a : arg) (v : any) :
  vars (parser w) !! name = Some a ->
  decode (ArgType a) raw = Some v ->
  exists w',
    SetVar name raw w = (Returns tt, w')
    /\ stdout w' = stdout w
    /\ GetVar (parser w') name = Returns v
    /\ IsLoaded (parser w') name = true
    /\ IsRequired (parser w') name = IsRequired (parser w) name
    /\ (forall other, other <> name ->
          vars (parser w') !! other = vars (parser w) !! other).
Proof.
  intros Ha Hd.
  destruct (Set_decode_some a raw v Hd) as (a' & Hs & Hg & Hl & _ & Hr).
  eexists. unfold SetVar. rewrite Ha, Hs. split; [done|]. cbn [parser stdout vars].
  split; [by rewrite app_nil_r|].
  unfold GetVar, IsLoaded, IsRequired, IsFlag. cbn [vars].
  rewrite lookup_insert_eq, Ha. simpl. rewrite Hg, Hl, Hr.
  repeat split; try done.
  intros other Hne. by rewrite lookup_insert_ne.
Qed.

End Registry.

(** ** What a parse keeps and what it can change *)

Section ParseInvariants.
Context `{!strconv.FloatParser}.

Lemma Set_keeps_name (a : arg) (raw : string) : Name (Set_ a raw).1 = Name a.
Proof. by destruct (Set_keeps a raw) as (_ & _ & Hn & _). Qed.

Lemma applyPairs_keeps_name (cmdVar : list flagValue) (vs : gmap string arg)
    (out : list string) (name : string) (a : arg) :
  vs !! name = Some a ->
  exists a', (applyPairs vs out cmdVar).1 !! name = Some a' /\ Name a' = Name a.
Proof.
  revert vs out a. induction cmdVar as [|fv cmdVar IH]; intros vs out a Ha.
  - by exists a.
  - rewrite applyPairs_cons.
    pose proof (applyPair_lookup vs out fv name) as Hstep. rewrite Ha in Hstep.
    destruct (decide (flag fv = name)).
    + destruct (IH _ (applyPair (vs, out) fv).2 _ Hstep) as (a' & Ha' & Hn).
      exists a'. split; [done|]. by rewrite Hn, Set_keeps_name.
    + by apply IH.
Qed.

Lemma wellFormed_scanned (pieces : list string) (w w' : World)
    (cmdVar : list flagValue) :
  scanLoop (length pieces) pieces 0 [] w = (Returns (Some cmdVar), w') ->
  wellFormed pieces /\ cmdVar = flagPairs pieces /\ w' = w.
Proof.
  intros Hscan. split.
  - intros idx tok Hexp Hp. destruct (isFlagToken tok) eqn:Hf; [done|].
    rewrite (scanLoop_malformed_at pieces w idx tok Hexp Hp Hf) in Hscan.
    discriminate Hscan.
  - destruct (scanLoop_pieces pieces w) as [Hok|(bad & tok & _ & _ & _ & Hbad)].
    + rewrite Hok in Hscan. by injection Hscan as <- <-.
    + rewrite Hbad in Hscan. discriminate Hscan.
Qed.

(** Every parse is one of two: it stops at a misplaced token with nothing
    applied, or the input is well formed and all its pairs are applied. *)
Lemma ParseFromString_cases (s : string) (w : World) :
  (exists bad tok,
      flagExpected (strings.Fields s) bad /\ strings.Fields s !! bad = Some tok
      /\ isFlagToken tok = false
      /\ ParseFromString s w
         = (Returns false,
            {| parser := parser w;
               stdout := stdout w ++ [malformedReport (strings.Fields s) bad] |}))
  \/ (wellFormed (strings.Fields s)
      /\ let cmdVar := flagPairs (strings.Fields s) in
         let st := applyPairs (vars (parser w))
                     (stdout w ++ undeclaredReport (vars (parser w)) cmdVar) cmdVar in
         ParseFromString s w
         = (Returns (bool_decide (missing st.1 = [])),
            {| parser := {| vars := st.1 |}; stdout := st.2 ++ missingReport st.1 |})).
Proof.
  destruct (scanLoop_pieces (strings.Fields s) w) as [Hok|(bad & tok & He & Hp & Hf & _)].
  - right. destruct (wellFormed_scanned _ _ _ _ Hok) as (Hwf & _).
    split; [done|]. by apply ParseFromString_wellFormed.
  - left. exists bad, tok. repeat split; try done. by apply (ParseFromString_stops s w bad tok).
Qed.

(** X4: [ParseFromString] returns on every input and every registry: it
    never panics, exits or runs short of turns.  It keeps the set of
    registered names and, for each of them, the kind, the name and the
    required mark of the slot; a flag that was loaded stays loaded; and what
    was printed before stays, with the new lines after it. *)
Theorem ParseFromString_returns_and_keeps (s : string) (w : World) :
  exists ok w',
    ParseFromString s w = (Returns ok, w')
    /\ (forall name, IsFlag (parser w') name = IsFlag (parser w) name)
    /\ (forall name, IsRequired (parser w') name = IsRequired (parser w) name)
    /\ (forall name, IsLoaded (parser w) name = true ->
                     IsLoaded (parser w') name = true)
    /\ (forall name a, vars (parser w) !! name = Some a ->
          exists a', vars (parser w') !! name = Some a'
                     /\ ArgType a' = ArgType a /\ Name a' = Name a)
    /\ (exists printed, stdout w' = stdout w ++ printed).
Proof.
  destruct (ParseFromString_cases s w) as [(bad & tok & _ & _ & _ & Hrun)|[_ Hrun]].
  - eexists _, _. split; [exact Hrun|]. cbn [parser stdout].
    repeat split; try done; eauto.
  - cbn zeta in Hrun. eexists _, _. split; [exact Hrun|]. cbn [parser stdout vars].
    set (cmdVar := flagPairs (strings.Fields s)) in *.
    set (out := stdout w ++ undeclaredReport (vars (parser w)) cmdVar) in *.
    assert (forall name,
               match vars (parser w) !! name with
               | Some a =>
                   exists a', (applyPairs (vars (parser w)) out cmdVar).1 !! name = Some a'
                              /\ ArgType a' = ArgType a /\ Required a' = Required a
                              /\ (Loaded a = true -> Loaded a' = true)
                              /\ Name a' = Name a
               | None => (applyPairs (vars (parser w)) out cmdVar).1 !! name = None
               end) as Hkeep.
    { intros name. pose proof (applyPairs_keeps cmdVar (vars (parser w)) out name) as Hk.
      destruct (vars (parser w) !! name) as [a|] eqn:Ha; [|done].
      destruct Hk as (a' & Ha' & Ht & Hr & Hl).
      destruct (applyPairs_keeps_name cmdVar _ out name a Ha) as (a'' & Ha'' & Hn).
      exists a'. rewrite Ha' in Ha''. injection Ha'' as <-. done. }
    split; [|split; [|split; [|split]]].
    + intros name. specialize (Hkeep name). unfold IsFlag. cbn [vars].
      destruct (vars (parser w) !! name); [|by rewrite Hkeep].
      by destruct Hkeep as (a' & -> & _).
    + intros name. specialize (Hkeep name). unfold IsRequired, IsFlag. cbn [vars].
      destruct (vars (parser w) !! name); [|by rewrite Hkeep].
      destruct Hkeep as (a' & -> & _ & Hr & _). simpl. done.
    + intros name. specialize (Hkeep name). unfold IsLoaded, IsFlag. cbn [vars].
      destruct (vars (parser w) !! name); [|done].
      destruct Hkeep as (a' & -> & _ & _ & Hl & _). simpl. exact Hl.
    + intros name a Ha. specialize (Hkeep name). rewrite Ha in Hkeep.
      destruct Hkeep as (a' & Ha' & Ht & _ & _ & Hn). by exists a'.
    + rewrite applyPairs_output. cbn [snd]. unfold out.
      eexists. by rewrite <- !app_assoc.
Qed.

(** X5: [ParseFromString] returns true exactly when the input is well
    formed and, in the registry it leaves, every required flag is loaded. *)
Theorem ParseFromString_true_iff (s : string) (w w' : World) (ok : bool) :
  ParseFromString s w = (Returns ok, w') ->
  ok = true
  <-> wellFormed (strings.Fields s)
      /\ forall name, IsRequired (parser w') name = true ->
                      IsLoaded (parser w') name = true.
Proof.
  intros Hrun.
  destruct (ParseFromString_cases s w) as [(bad & tok & He & Hp & Hf & Hbad)|[Hwf Hok]].
  - rewrite Hbad in Hrun. injection Hrun as <- <-. split; [done|].
    intros [Hwf _]. rewrite (Hwf bad tok He Hp) in Hf. discriminate Hf.
  - cbn zeta in Hok. rewrite Hok in Hrun. injection Hrun as <- <-. cbn [parser].
    rewrite bool_decide_eq_true, missing_nil. split.
    + intros Hall. split; [done|]. intros name.
      unfold IsRequired, IsLoaded, IsFlag. cbn [vars].
      destruct (_ !! name) as [a|] eqn:Ha; [|done]. simpl. exact (Hall name a Ha).
    + intros [_ Hall] name a Ha Hr. specialize (Hall name).
      unfold IsRequired, IsLoaded, IsFlag in Hall. cbn [vars] in Hall.
      rewrite Ha in Hall. simpl in Hall. by apply Hall.
Qed.

(** X6: a flag the input has no pair for is left as it is by a parse:
    the slot, and so its value and its loaded mark, is the same after. *)
Theorem ParseFromString_frame (s : string) (w : World) (name : string) :
  (forall fv, fv ∈ flagPairs (strings.Fields s) -> flag fv <> name) ->
  vars (parser (ParseFromString s w).2) !! name = vars (parser w) !! name.
Proof.
  intros Hnot.
  destruct (ParseFromString_cases s w) as [(bad & tok & _ & _ & _ & ->)|[_ Hrun]];
    [done|].
  cbn zeta in Hrun. rewrite Hrun. cbn [snd parser vars].
  destruct (vars (parser w) !! name) as [a|] eqn:Ha.
  - apply applyPairs_untouched; [done|]. intros fv Hin Hflag.
    by destruct (Hnot fv Hin).
  - pose proof (applyPairs_keeps (flagPairs (strings.Fields s)) (vars (parser w))
                  (stdout w ++ undeclaredReport (vars (parser w))
                                 (flagPairs (strings.Fields s))) name) as Hk.
    by rewrite Ha in Hk.
Qed.

(** X7: on an input without tokens, an empty or all-blank string among
    them, nothing is applied: the registry stays, and the result is true
    exactly when no required flag is unloaded. *)
Theorem ParseFromString_no_tokens (s : string) (w : World) :
  strings.Fields s = [] ->
  ParseFromString s w
  = (Returns (bool_decide (missing (vars (parser w)) = [])),
     {| parser := parser w;
        stdout := stdout w ++ missingReport (vars (parser w)) |}).
Proof.
  intros Hnone.
  assert (wellFormed (strings.Fields s)) as Hwf.
  { rewrite Hnone. intros idx tok _ Hp. by rewrite lookup_nil in Hp. }
  rewrite (ParseFromString_wellFormed s w Hwf). rewrite Hnone.
  unfold flagPairs, applyPairs, undeclaredReport, undeclared. simpl.
  by rewrite app_nil_r, CmdParser_eta.
Qed.

End ParseInvariants.

(** ** Tokens of joined texts *)

Lemma spaceWidth_le (s : string) : (strings.spaceWidth s <= String.length s)%nat.
Proof.
  destruct s as [|c [|d [|e s]]]; [done|..].
  - destruct c as [[] [] [] [] [] [] [] []]; vm_compute; lia.
  - destruct c as [[] [] [] [] [] [] [] []]; try (vm_compute; lia).
    all: destruct d as [[] [] [] [] [] [] [] []]; vm_compute; lia.
  - unfold strings.spaceWidth. destruct (strings.isAsciiSpace c); [simpl; lia|].
    repeat match goal with
           | |- context [match ?x with _ => _ end] => destruct x; try (simpl; lia)
           end.
Qed.

(** A space put after a text does not make a separator of the bytes before
    it. *)
Lemma spaceWidth_before_space (c : ascii) (s t : string) :
  strings.spaceWidth (String c (s +:+ String " " t)) = strings.spaceWidth (String c s).
Proof.
  destruct s as [|d [|e s]].
  - change ("" +:+ String " " t) with (String " " t).
    destruct t as [|e t]; destruct c as [[] [] [] [] [] [] [] []]; reflexivity.
  - change (String d "" +:+ String " " t) with (String d (String " " t)).
    destruct c as [[] [] [] [] [] [] [] []]; try reflexivity;
      destruct d as [[] [] [] [] [] [] [] []]; reflexivity.
  - reflexivity.
Qed.

Lemma fieldsLoop_before_space (s t : string) :
  forall (skip : nat) (field : string),
    (skip <= String.length s)%nat ->
    strings.fieldsLoop (s +:+ String " " t) skip field
    = strings.fieldsLoop s skip field ++ strings.Fields t.
Proof.
  induction s as [|c s IH]; intros skip field Hskip.
  - simpl in Hskip. replace skip with 0%nat by lia.
    change ("" +:+ String " " t) with (String " " t). reflexivity.
  - change (String c s +:+ String " " t) with (String c (s +:+ String " " t)).
    cbn [strings.fieldsLoop]. simpl in Hskip. destruct skip as [|k].
    + rewrite spaceWidth_before_space.
      pose proof (spaceWidth_le (String c s)) as Hw. cbn [String.length] in Hw.
      destruct (strings.spaceWidth (String c s)) as [|k].
      * apply IH. lia.
      * rewrite IH by lia. by rewrite app_assoc.
    + apply IH. lia.
Qed.

Lemma Fields_before_space (s t : string) :
  strings.Fields (s +:+ " " +:+ t) = strings.Fields s ++ strings.Fields t.
Proof. apply fieldsLoop_before_space. lia. Qed.

Lemma Fields_empty : strings.Fields "" = [].
Proof. reflexivity. Qed.

Lemma Join_cons (x : string) (xs : list string) :
  strings.Fields (strings.Join (x :: xs) " ")
  = strings.Fields x ++ strings.Fields (strings.Join xs " ").
Proof.
  destruct xs as [|y ys]; [by rewrite app_nil_r|].
  change (strings.Join (x :: y :: ys) " ")
    with (x +:+ " " +:+ strings.Join (y :: ys) " ").
  apply Fields_before_space.
Qed.

(** The tokens of texts joined by single spaces are the tokens of the
    texts, in order. *)
Lemma Fields_Join (texts : list string) :
  strings.Fields (strings.Join texts " ") = mjoin (strings.Fields <$> texts).
Proof.
  induction texts as [|x xs IH]; [done|].
  rewrite Join_cons, IH. done.
Qed.

Section Sources.
Context `{!strconv.FloatParser}.

Lemma ParseFromString_Fields (s t : string) (w : World) :
  strings.Fields s = strings.Fields t -> ParseFromString s w = ParseFromString t w.
Proof. intros Heq. unfold ParseFromString. by rewrite Heq. Qed.

(** X8: [ParseFromCmdLine] does not look at the program name, and it reads
    the arguments by their white space, not one by one: argument lists with
    the same tokens parse alike, so an argument with white space inside
    counts as several and an empty one as none.  Arguments that are single
    tokens are read as they stand. *)
Theorem ParseFromCmdLine_tokens (prog prog' : string) (args args' : list string)
    (w : World) :
  (mjoin (strings.Fields <$> args) = mjoin (strings.Fields <$> args') ->
   ParseFromCmdLine (prog :: args) w = ParseFromCmdLine (prog' :: args') w)
  /\ ((forall a, a ∈ args -> strings.Fields a = [a]) ->
      strings.Fields (strings.Join args " ") = args).
Proof.
  split.
  - intros Hsame. cbn [ParseFromCmdLine]. apply ParseFromString_Fields.
    by rewrite !Fields_Join.
  - intros Hall. rewrite Fields_Join. clear w.
    induction args as [|a l IH]; [done|].
    change (mjoin (strings.Fields <$> a :: l))
      with (strings.Fields a ++ mjoin (strings.Fields <$> l)).
    rewrite (Hall a) by left. rewrite IH; [done|]. intros b Hb. apply Hall. by right.
Qed.

End Sources.

(** ** A flag file as a string *)

Lemma hasByte_substring (c : ascii) (s : string) (n m : nat) :
  hasByte c s = false -> hasByte c (String.substring n m s) = false.
Proof.
  revert n m. induction s as [|d s IH]; intros n m Hs.
  - by destruct n, m.
  - simpl in Hs. apply orb_false_elim in Hs as [Hd Hs].
    destruct n as [|n]; destruct m as [|m]; simpl; auto.
    rewrite Hd. simpl. auto.
Qed.

Lemma Replace1_absent (c : ascii) (s : string) :
  hasByte c s = false -> strings.Replace1 s (String c "") "" = s.
Proof.
  induction s as [|d s IH]; intros Hs; [done|].
  simpl in Hs. apply orb_false_elim in Hs as [Hd Hs].
  cbn [strings.Replace1 String.prefix].
  destruct (ascii_dec c d) as [->|Hne].
  - by rewrite Ascii.eqb_refl in Hd.
  - by rewrite IH.
Qed.

Lemma keptText_loop (line : string) :
  commentLoop (String.length line) line 0 0 = Returns (keptText line).
Proof.
  unfold keptText. by destruct (commentLoop_returns line) as [kept ->].
Qed.

Lemma keptText_no_hash (line : string) : hasHash line = false -> keptText line = line.
Proof. intros Hh. unfold keptText. by rewrite commentLoop_line, Hh. Qed.

Lemma keptText_hasByte (c : ascii) (line : string) :
  hasByte c line = false -> hasByte c (keptText line) = false.
Proof.
  intros Hc. unfold keptText. rewrite commentLoop_line.
  destruct (hasHash line); [|done]. cbn zeta.
  destruct (_ =? _)%nat; [done|]. by apply hasByte_substring.
Qed.

(** Reading the lines gives a string whose tokens are those of what is
    kept of each line, after those of the string so far. *)
Lemma readLines_tokens (lines : list string) :
  (forall line, line ∈ lines -> hasByte "010" line = false) ->
  forall cmd_string w,
    exists result,
      readLines lines cmd_string w = (Returns result, w)
      /\ strings.Fields result
         = strings.Fields cmd_string ++ mjoin (strings.Fields <$> (keptText <$> lines)).
Proof.
  induction lines as [|line lines IH]; intros Hnl cmd_string w.
  - exists cmd_string. split; [done|]. by rewrite app_nil_r.
  - assert (forall l, l ∈ lines -> hasByte "010" l = false) as Hnl'.
    { intros l Hl. apply Hnl. by right. }
    change (mjoin (strings.Fields <$> (keptText <$> line :: lines)))
      with (strings.Fields (keptText line)
            ++ mjoin (strings.Fields <$> (keptText <$> lines))).
    destruct (decide (line = "")) as [->|Hne].
    { destruct (IH Hnl' cmd_string w) as (result & Hrun & Htok).
      exists result. split; [exact Hrun|]. by rewrite Htok. }
    rewrite (readLines_step line (keptText line)) by (done || apply keptText_loop).
    destruct (String.eqb (keptText line) "") eqn:Hkept.
    + apply String.eqb_eq in Hkept. rewrite Hkept.
      destruct (IH Hnl' cmd_string w) as (result & Hrun & Htok).
      exists result. split; [exact Hrun|]. by rewrite Htok.
    + unfold newline. rewrite Replace1_absent.
      2:{ apply keptText_hasByte, Hnl. left. }
      destruct (IH Hnl' (cmd_string +:+ " " +:+ keptText line) w)
        as (result & Hrun & Htok).
      exists result. split; [exact Hrun|].
      by rewrite Htok, Fields_before_space, app_assoc.
Qed.

Lemma readLines_tabs_hash (k : nat) (comment : string) (rest : list string)
    (cmd_string : string) (w : World) :
  readLines ((tabs k +:+ "#" +:+ comment) :: rest) cmd_string w
  = readLines rest cmd_string w.
Proof.
  destruct (beforeHash_app (tabs k) comment (hasHash_tabs k)) as [Hbefore Hhas].
  destruct (countTabs_tabs k) as [Hct Hlt].
  rewrite (readLines_step _ ""); [done| |].
  - intros Hl. rewrite Hl in Hhas. discriminate Hhas.
  - rewrite commentLoop_line, Hhas, Hbefore. cbn zeta.
    by rewrite Hct, Hlt, Nat.eqb_refl.
Qed.

Section Files.
Context `{!strconv.FloatParser}.

Lemma ParseFromFile_kept (open : string -> option (list string))
    (filename : string) (lines : list string) (w : World) :
  open filename = Some lines ->
  (forall line, line ∈ lines -> hasByte "010" line = false) ->
  ParseFromFile open filename w
  = ParseFromString (strings.Join (keptText <$> lines) " ") w.
Proof.
  intros Hopen Hnl. unfold ParseFromFile. rewrite Hopen. unfold bind.
  destruct (readLines_tokens lines Hnl "" w) as (result & -> & Htok).
  apply ParseFromString_Fields. by rewrite Htok, Fields_Join.
Qed.

(** X9: a file that opens is parsed, without any panic, like the string
    made of what the scan for the hash keeps of each of its lines, joined by
    spaces: line ends count as white space and empty lines as nothing.  The
    lines are those of the line scanner, which hold no line feed. *)
Theorem ParseFromFile_as_string (open : string -> option (list string))
    (filename : string) (lines : list string) (w : World) :
  open filename = Some lines ->
  (forall line, line ∈ lines -> hasByte "010" line = false) ->
  ParseFromFile open filename w
  = ParseFromString (strings.Join (keptText <$> lines) " ") w
  /\ exists ok w', ParseFromFile open filename w = (Returns ok, w').
Proof.
  intros Hopen Hnl. rewrite (ParseFromFile_kept open filename lines w Hopen Hnl).
  split; [done|].
  destruct (ParseFromString_cases (strings.Join (keptText <$> lines) " ") w)
    as [(bad & tok & _ & _ & _ & ->)|[_ Hrun]]; [by eexists _, _|].
  cbn zeta in Hrun. rewrite Hrun. by eexists _, _.
Qed.

(** X10: a file without any hash parses like its lines joined by spaces,
    so flags and values may be split over the lines at will. *)
Theorem ParseFromFile_without_comments (open : string -> option (list string))
    (filename : string) (lines : list string) (w : World) :
  open filename = Some lines ->
  (forall line, line ∈ lines -> hasByte "010" line = false /\ hasHash line = false) ->
  ParseFromFile open filename w = ParseFromString (strings.Join lines " ") w.
Proof.
  intros Hopen Hlines.
  rewrite (ParseFromFile_kept open filename lines w Hopen)
    by (intros line Hl; by destruct (Hlines line Hl)).
  f_equal. f_equal. clear Hopen.
  induction lines as [|line lines IH]; [done|].
  rewrite fmap_cons, keptText_no_hash by (apply Hlines; left).
  rewrite IH; [done|]. intros l Hl. apply Hlines. by right.
Qed.

(** X11: a file made of empty lines and of lines that begin, after tabs
    only, with a hash gives no token: it parses like the empty string. *)
Theorem ParseFromFile_only_comments (open : string -> option (list string))
    (filename : string) (lines : list string) (w : World) :
  open filename = Some lines ->
  (forall line, line ∈ lines ->
     line = "" \/ exists k comment, line = tabs k +:+ "#" +:+ comment) ->
  ParseFromFile open filename w = ParseFromString "" w.
Proof.
  intros Hopen Hlines. unfold ParseFromFile. rewrite Hopen. unfold bind.
  assert (forall cmd_string, readLines lines cmd_string w = (Returns cmd_string, w))
    as ->; [|done].
  clear Hopen. induction lines as [|line lines IH]; intros cmd_string; [done|].
  assert (readLines (line :: lines) cmd_string w = readLines lines cmd_string w)
    as ->; [|apply IH; intros l Hl; apply Hlines; by right].
  destruct (Hlines line) as [->|(k & comment & ->)]; [left|done|].
  apply readLines_tabs_hash.
Qed.

End Files.

(** ** The entry point *)

Section Entry.
Context `{!strconv.FloatParser}.

(** [Parse] after the choice of the source: a parse that returns false is
    turned into a panic. *)
Lemma Parse_escalates (parsed : M bool) (w w' : World) (ok : bool) :
  parsed w = (Returns ok, w') ->
  (parsedOK <- parsed ;;
   if negb parsedOK then panic (PanicValue "Command line parsing error")
   else ret true) w
  = (if ok then Returns true
     else Panics (PanicValue "Command line parsing error"), w').
Proof. intros Hp. unfold bind. rewrite Hp. by destruct ok. Qed.

(** X12: [Parse] never returns false: when it returns, it returns true.
    With the program name alone it prints a line and exits with status 1,
    and with no [os.Args] at all it panics on the slice. *)
Theorem Parse_returns_only_true (open : string -> option (list string))
    (Args : list string) (w : World) :
  (forall r w', Parse open Args w = (Returns r, w') -> r = true)
  /\ (length Args = 1%nat ->
      Parse open Args w
      = (Exits 1,
         {| parser := parser w;
            stdout := stdout w ++ [Println_text "call requires command line arguments"] |}))
  /\ (Args = [] -> Parse open Args w = (Panics SliceOutOfRange, w)).
Proof.
  split; [|split].
  - intros r w'. unfold Parse. unfold bind at 1.
    destruct (length Args =? 1)%nat; [done|]. unfold ret at 1.
    unfold bind at 1.
    destruct ((if (1 <? length Args)%nat
               then a <- index Args 1;; ret (String.eqb a "-is")
               else ret false) w) as [[isFile| | |] w1]; try done.
    unfold bind at 1.
    destruct ((if isFile
               then cmdfile <- index Args 2;; ParseFromFile open cmdfile
               else ParseFromCmdLine Args) w1) as [[[|]| | |] w2]; try done.
    by intros [= <- _].
  - intros Hlen. unfold Parse. unfold bind at 1. by rewrite Hlen.
  - by intros ->.
Qed.

(** X13: when the first argument is not -is, [Parse] parses the arguments
    joined by spaces: it returns true if that parse does, and panics with
    its own message, after what the parse printed and with what the parse
    applied, if that parse returns false. *)
Theorem Parse_command_line (open : string -> option (list string))
    (prog first : string) (rest : list string) (w w' : World) (ok : bool) :
  first <> "-is" ->
  ParseFromString (strings.Join (first :: rest) " ") w = (Returns ok, w') ->
  Parse open (prog :: first :: rest) w
  = (if ok then Returns true
     else Panics (PanicValue "Command line parsing error"), w').
Proof.
  intros Hfirst Hrun. unfold Parse. unfold bind at 1.
  change (length (prog :: first :: rest) =? 1)%nat with false. unfold ret at 1.
  unfold bind at 1. unfold bind at 1. unfold index at 1. cbn [lookup list_lookup].
  change (1 <? length (prog :: first :: rest))%nat with true.
  unfold ret at 1 2. apply String.eqb_neq in Hfirst. rewrite Hfirst.
  by apply Parse_escalates.
Qed.

(** X14: when the first argument is -is, [Parse] reads the file named by
    the second and nothing else: the arguments after the file name are
    dropped without a word.  A file that cannot be opened makes [Parse]
    panic after the line that says so, the registry untouched. *)
Theorem Parse_file_only (open : string -> option (list string))
    (prog filename : string) (rest : list string) (w : World) :
  Parse open (prog :: "-is" :: filename :: rest) w
  = Parse open [prog; "-is"; filename] w
  /\ (open filename = None ->
      Parse open (prog :: "-is" :: filename :: rest) w
      = (Panics (PanicValue "Command line parsing error"),
         {| parser := parser w;
            stdout := stdout w ++ [Println_text "Cannot open command line file"] |})).
Proof.
  split; [done|]. intros Hopen. unfold Parse. unfold bind at 1.
  change (length (prog :: "-is" :: filename :: rest) =? 1)%nat with false.
  unfold ret at 1. unfold bind at 1. unfold bind at 1. unfold index at 1.
  cbn [lookup list_lookup].
  change (1 <? length (prog :: "-is" :: filename :: rest))%nat with true.
  unfold ret at 1 2. change (String.eqb "-is" "-is") with true.
  rewrite (Parse_escalates _ w
             {| parser := parser w;
                stdout := stdout w ++ [Println_text "Cannot open command line file"] |}
             false); [done|].
  unfold bind, index. cbn [lookup list_lookup]. unfold ret at 1.
  unfold ParseFromFile. by rewrite Hopen.
Qed.

End Entry.

(** ** Values the scan can and cannot give *)

Lemma flagPairs_value_no_dash (pieces : list string) (fv : flagValue) :
  fv ∈ flagPairs pieces -> isFlagToken (value fv) = false.
Proof.
  unfold flagPairs. rewrite list_elem_of_omap. intros (i & _ & Hpair).
  unfold pairAt in Hpair.
  destruct (pieces !! i) as [tok|]; [|done].
  destruct (isFlagToken tok); [|done]. injection Hpair as <-. cbn [value].
  destruct (pieces !! (i + 1)%nat) as [nxt|]; [|done].
  by destruct (isFlagToken nxt) eqn:Hn.
Qed.

Lemma ParseInt_no_dash (raw : string) (sv : Z) :
  strconv.ParseInt raw = Some sv -> isFlagToken raw = false -> 0 <= sv.
Proof.
  unfold isFlagToken, strings.HasPrefix, strconv.ParseInt.
  destruct raw as [|c rest]; [done|]. cbn [String.prefix].
  destruct (ascii_dec "-" c) as [<-|Hc].
  { by rewrite prefix_empty. }
  intros Hp _. assert (Ascii.eqb c "-" = false) as Hneg.
  { apply Ascii.eqb_neq. congruence. }
  rewrite Hneg in Hp. cbn [negb andb orb] in Hp.
  destruct (if Ascii.eqb c "+" || false then rest else String c rest) as [|c' body];
    [done|].
  destruct (strconv.digits (String c' body) 0) as [un|] eqn:Hd; [|done].
  apply digits_lower_bound in Hd; [|lia].
  destruct (2 ^ 63 <=? un); [done|]. by injection Hp as <-.
Qed.

Section Values.
Context `{!strconv.FloatParser}.

(** A slot after [Set] with a value that does not begin with a dash is the
    slot before, or holds no negative integer. *)
Lemma Set_no_dash (a : arg) (raw : string) (z : Z) :
  isFlagToken raw = false ->
  Get (Set_ a raw).1 = AnyInt z \/ Get (Set_ a raw).1 = AnyInt64 z ->
  (Set_ a raw).1 = a \/ 0 <= z.
Proof.
  intros Hraw. destruct a as [vs|vs|vs|vs|vs]; simpl.
  - unfold intVar.Set_. destruct (strconv.ParseInt raw) as [sv|] eqn:Hp; [|by left].
    simpl. rewrite (int_ParseInt raw sv Hp). intros [[= <-]|[=]]. right.
    by apply (ParseInt_no_dash raw).
  - unfold int64Var.Set_. destruct (strconv.ParseInt raw) as [sv|] eqn:Hp; [|by left].
    simpl. intros [[=]|[= <-]]. right. by apply (ParseInt_no_dash raw).
  - unfold floatVar.Set_. destruct (strconv.ParseFloat raw); simpl; [|by left].
    by intros [[=]|[=]].
  - by intros [[=]|[=]].
  - by intros [[=]|[=]].
Qed.

Lemma applyPairs_slotAfter (cmdVar : list flagValue) (vs : gmap string arg)
    (out : list string) (name : string) :
  (applyPairs vs out cmdVar).1 !! name
  = (fun a => slotAfter name a cmdVar) <$> vs !! name.
Proof.
  revert vs out. induction cmdVar as [|fv cmdVar IH]; intros vs out.
  - unfold applyPairs, slotAfter. simpl. by destruct (vs !! name).
  - rewrite applyPairs_cons, IH, applyPair_lookup.
    destruct (vs !! name) as [a|]; [|done].
    unfold slotAfter. cbn [foldl]. by destruct (decide (flag fv = name)).
Qed.

Lemma slotAfter_no_dash (name : string) (cmdVar : list flagValue) :
  (forall fv, fv ∈ cmdVar -> isFlagToken (value fv) = false) ->
  forall (a : arg) (z : Z),
    Get (slotAfter name a cmdVar) = AnyInt z
    \/ Get (slotAfter name a cmdVar) = AnyInt64 z ->
    slotAfter name a cmdVar = a \/ 0 <= z.
Proof.
  induction cmdVar as [|fv cmdVar IH]; intros Hvals a z Hget; [by left|].
  unfold slotAfter in *. cbn [foldl] in *.
  assert (forall fv', fv' ∈ cmdVar -> isFlagToken (value fv') = false) as Hvals'.
  { intros fv' Hin. apply Hvals. by right. }
  destruct (decide (flag fv = name)) as [Heq|Hne]; [|by apply IH].
  destruct (IH Hvals' _ z Hget) as [Hsame|Hz]; [|by right].
  rewrite Hsame in Hget |- *.
  apply Set_no_dash; [|done]. apply Hvals. left.
Qed.

(** X15: no value read from the input begins with a dash, so a parse
    cannot give a negative number to an [int] or [int64] flag: after any
    parse such a slot is the one it was before, or holds a number that is
    not negative. *)
Theorem ParseFromString_no_negative (s : string) (w : World) (name : string)
    (a a' : arg) (z : Z) :
  vars (parser w) !! name = Some a ->
  vars (parser (ParseFromString s w).2) !! name = Some a' ->
  Get a' = AnyInt z \/ Get a' = AnyInt64 z ->
  a' = a \/ 0 <= z.
Proof.
  intros Ha Ha' Hget.
  destruct (ParseFromString_cases s w) as [(bad & tok & _ & _ & _ & Hrun)|[_ Hrun]].
  - rewrite Hrun in Ha'. cbn [snd parser] in Ha'. left. congruence.
  - cbn zeta in Hrun. rewrite Hrun in Ha'. cbn [snd parser vars] in Ha'.
    rewrite applyPairs_slotAfter, Ha in Ha'. injection Ha' as <-.
    apply slotAfter_no_dash; [|done]. apply flagPairs_value_no_dash.
Qed.

(** X16: an [int] or [int64] flag given without a value, at the end or
    before another flag, is not set: the text true is what [Set] gets, it
    is no number, and the slot stays as it was. *)
Theorem ParseFromString_int_without_value (s : string) (w : World)
    (name : string) (a : arg) :
  vars (parser w) !! name = Some a ->
  ArgType a = IntFlag \/ ArgType a = Int64Flag ->
  (forall fv, fv ∈ flagPairs (strings.Fields s) -> flag fv = name ->
              value fv = "true") ->
  vars (parser (ParseFromString s w).2) !! name = Some a.
Proof.
  intros Ha Hkind Htrue.
  destruct (ParseFromString_cases s w) as [(bad & tok & _ & _ & _ & Hrun)|[_ Hrun]].
  - by rewrite Hrun.
  - cbn zeta in Hrun. rewrite Hrun. cbn [snd parser vars].
    apply applyPairs_untouched; [done|]. intros fv Hin Hflag.
    rewrite (Htrue fv Hin Hflag). by destruct Hkind as [-> | ->].
Qed.

Lemma Set_shape (a : arg) (raw : string) : shape (Set_ a raw).1 = shape a.
Proof.
  destruct (Set_keeps a raw) as (Ht & Hr & Hn & _). unfold shape. by rewrite Ht, Hr, Hn.
Qed.

(** [Set] with a string that decodes gives the same slot from any two slots
    of one shape; with a string that does not, it gives the slot back. *)
Lemma Set_from_shape (a b : arg) (raw : string) :
  shape a = shape b ->
  (Set_ a raw).1 = (Set_ b raw).1 \/ ((Set_ a raw).1 = a /\ (Set_ b raw).1 = b).
Proof.
  unfold shape. intros Hs.
  destruct a as [x|x|x|x|x], b as [y|y|y|y|y]; try discriminate Hs;
    destruct x as [xn xv xr xl], y as [yn yv yr yl]; simpl in Hs;
    injection Hs as -> ->; simpl.
  - unfold intVar.Set_. destruct (strconv.ParseInt raw); simpl; auto.
  - unfold int64Var.Set_. destruct (strconv.ParseInt raw); simpl; auto.
  - unfold floatVar.Set_. destruct (strconv.ParseFloat raw); simpl; auto.
  - by left.
  - by left.
Qed.

Lemma slotAfter_snoc (name : string) (a : arg) (cmdVar : list flagValue)
    (fv : flagValue) :
  slotAfter name a (cmdVar ++ [fv])
  = if decide (flag fv = name) then (Set_ (slotAfter name a cmdVar) (value fv)).1
    else slotAfter name a cmdVar.
Proof. unfold slotAfter. by rewrite foldl_app. Qed.

Lemma slotAfter_shape (name : string) (a : arg) (cmdVar : list flagValue) :
  shape (slotAfter name a cmdVar) = shape a.
Proof.
  induction cmdVar as [|fv cmdVar IH] using rev_ind; [done|].
  rewrite slotAfter_snoc. destruct (decide (flag fv = name)); [|done].
  by rewrite Set_shape.
Qed.

Lemma slotAfter_from_shape (name : string) (cmdVar : list flagValue) (a b : arg) :
  shape a = shape b ->
  slotAfter name a cmdVar = slotAfter name b cmdVar
  \/ (slotAfter name a cmdVar = a /\ slotAfter name b cmdVar = b).
Proof.
  intros Hs. induction cmdVar as [|fv cmdVar IH] using rev_ind; [by right|].
  rewrite !slotAfter_snoc. destruct (decide (flag fv = name)); [|done].
  destruct IH as [->|[-> ->]]; [by left|]. by apply Set_from_shape.
Qed.

Lemma slotAfter_twice (name : string) (cmdVar : list flagValue) (a : arg) :
  slotAfter name (slotAfter name a cmdVar) cmdVar = slotAfter name a cmdVar.
Proof.
  destruct (slotAfter_from_shape name cmdVar a (slotAfter name a cmdVar))
    as [Heq|[_ Heq]]; [by rewrite slotAfter_shape|by rewrite <- Heq|done].
Qed.

(** X17: parsing the same string again changes nothing more: the second
    parse leaves the registry of the first and returns what the first
    returned. *)
Theorem ParseFromString_twice (s : string) (w : World) :
  parser (ParseFromString s (ParseFromString s w).2).2
  = parser (ParseFromString s w).2
  /\ (ParseFromString s (ParseFromString s w).2).1 = (ParseFromString s w).1.
Proof.
  destruct (ParseFromString_cases s w) as [(bad & tok & He & Hp & Hf & Hrun)|[Hwf Hrun]].
  - rewrite Hrun. cbn [snd fst]. by rewrite (ParseFromString_stops s _ bad tok).
  - cbn zeta in Hrun. rewrite Hrun. cbn [snd fst].
    rewrite (ParseFromString_wellFormed s _ Hwf). cbn [snd fst parser vars stdout].
    set (cmdVar := flagPairs (strings.Fields s)).
    set (st := applyPairs (vars (parser w)) _ cmdVar).
    set (st2 := applyPairs st.1 _ cmdVar).
    assert (st2.1 = st.1) as Hsame; [|by rewrite Hsame].
    apply map_eq. intros name. unfold st2, st.
    rewrite !applyPairs_slotAfter.
    destruct (vars (parser w) !! name) as [a|]; [|done]. simpl.
    by rewrite slotAfter_twice.
Qed.

End Values.

(** X18: the six kinds have six different names, so [FlagTypeString] tells
    the kind; a slot made by [AddFlag] answers [ArgType] with the kind it
    was made for. *)
Theorem FlagTypeString_tells_kind (k1 k2 : FlagArgType) :
  (FlagTypeString k1 = FlagTypeString k2 -> k1 = k2)
  /\ (forall cp name req a,
        k1 <> None_ ->
        vars (AddFlag cp k1 name req) !! name = Some a ->
        FlagTypeString (ArgType a) = FlagTypeString k1).
Proof.
  split.
  - destruct k1, k2; simpl; intros Heq; try done; discriminate Heq.
  - intros cp name req a Hk Ha.
    destruct (AddFlag_lookup cp k1 name req Hk) as (a0 & Ha0 & Ht & _).
    rewrite Ha0 in Ha. injection Ha as <-. by rewrite Ht.
Qed.

(** ** Guards and silence *)

Section Guards.
Context `{!strconv.FloatParser}.

(** X19: a name for which [IsLoaded] or [IsRequired] answers true is a
    registered flag, so that [GetVar] returns for it and [SetVar] does not
    panic on it; for a name that is no flag both answer false. *)
Theorem IsLoaded_guards_GetVar (w : World) (name : string) :
  (IsLoaded (parser w) name = true \/ IsRequired (parser w) name = true ->
   IsFlag (parser w) name = true
   /\ (exists v, GetVar (parser w) name = Returns v)
   /\ (forall raw, exists w', SetVar name raw w = (Returns tt, w')))
  /\ (IsFlag (parser w) name = false ->
      IsLoaded (parser w) name = false /\ IsRequired (parser w) name = false).
Proof.
  unfold IsLoaded, IsRequired, IsFlag, GetVar, SetVar.
  destruct (vars (parser w) !! name) as [a|]; simpl.
  - split; [|done]. intros _. split; [done|]. split; [by eexists|].
    intros raw. destruct (Set_ a raw). by eexists.
  - split; [|done]. by intros [|].
Qed.

Lemma applyPairs_silent (cmdVar : list flagValue) :
  forall (vs : gmap string arg) (out : list string),
    (forall fv, fv ∈ cmdVar ->
       exists a v, vs !! flag fv = Some a /\ decode (ArgType a) (value fv) = Some v) ->
    (applyPairs vs out cmdVar).2 = out.
Proof.
  induction cmdVar as [|fv cmdVar IH]; intros vs out Hall; [done|].
  rewrite applyPairs_cons.
  destruct (Hall fv) as (a & v & Ha & Hd); [left|].
  destruct (Set_decode_some a (value fv) v Hd) as (a' & Hs & _ & _ & Ht & _).
  assert ((applyPair (vs, out) fv).2 = out) as Hout.
  { unfold applyPair. cbn [fst snd]. rewrite Ha, Hs. cbn [snd]. by rewrite app_nil_r. }
  rewrite Hout. apply IH. intros fv' Hin.
  destruct (Hall fv') as (b & v' & Hb & Hd'); [by right|].
  rewrite applyPair_lookup, Hb.
  destruct (decide (flag fv = flag fv')) as [Heq|Hne]; [|by eauto].
  rewrite Heq, Hb in Ha. injection Ha as ->.
  rewrite Hs. cbn [fst]. exists a', v'. split; [done|]. by rewrite Ht.
Qed.

(** X20: a parse is silent when there is nothing to complain about: on a
    well-formed input whose flags are all registered, with values that all
    decode, and that leaves no required flag unloaded, [ParseFromString]
    returns true and prints nothing. *)
Theorem ParseFromString_silent (s : string) (w : World) :
  wellFormed (strings.Fields s) ->
  (forall fv, fv ∈ flagPairs (strings.Fields s) ->
     exists a v, vars (parser w) !! flag fv = Some a
                 /\ decode (ArgType a) (value fv) = Some v) ->
  (forall name a, vars (parser w) !! name = Some a -> Required a = true ->
     Loaded a = true \/ exists fv, fv ∈ flagPairs (strings.Fields s) /\ flag fv = name) ->
  (ParseFromString s w).1 = Returns true
  /\ stdout (ParseFromString s w).2 = stdout w.
Proof.
  intros Hwf Hall Hreq. rewrite (ParseFromString_wellFormed s w Hwf).
  cbn [fst snd stdout].
  set (cmdVar := flagPairs (strings.Fields s)) in *.
  assert (undeclaredReport (vars (parser w)) cmdVar = []) as ->.
  { unfold undeclaredReport. rewrite undeclared_filter.
    destruct (filter _ cmdVar) as [|fv l] eqn:Hfilter; [done|].
    assert (fv ∈ filter (fun fv => negb (declared (vars (parser w)) fv) = true) cmdVar)
      as Hin by (rewrite Hfilter; left).
    apply list_elem_of_filter in Hin as [Hdec Hin].
    destruct (Hall fv Hin) as (a & v & Ha & _).
    unfold declared in Hdec. rewrite Ha in Hdec.
    by rewrite bool_decide_eq_true_2 in Hdec. }
  rewrite app_nil_r, (applyPairs_silent cmdVar _ _ Hall).
  set (st := applyPairs (vars (parser w)) (stdout w) cmdVar).
  assert (missing st.1 = []) as Hmiss.
  { apply missing_nil. intros name a' Ha' Hr.
    pose proof (applyPairs_keeps cmdVar (vars (parser w)) (stdout w) name) as Hk.
    fold st in Hk. destruct (vars (parser w) !! name) as [a|] eqn:Ha;
      [|by rewrite Hk in Ha'].
    destruct Hk as (b & Hb & _ & Hrb & Hlb). rewrite Hb in Ha'. injection Ha' as ->.
    destruct (Hreq name a Ha) as [Hl|(fv & Hin & Hflag)]; [congruence|by auto|].
    destruct (Hall fv Hin) as (a0 & v & Ha0 & Hd).
    apply list_elem_of_split in Hin as (pre & post & Hsplit).
    destruct (applyPairs_decoded pre post fv (vars (parser w)) (stdout w) a0 v Ha0 Hd)
      as (a1 & Ha1 & Hl1 & _).
    rewrite <- Hsplit in Ha1. fold st in Ha1. rewrite Hflag, Hb in Ha1.
    by injection Ha1 as ->. }
  unfold missingReport. rewrite Hmiss. simpl. by rewrite app_nil_r.
Qed.

End Guards.

(** ** The further results on concrete inputs *)

Lemma AddFlag_registers_witness :
  IsFlag (AddFlag sampleParser FloatFlag "x" true) "x" = true
  /\ IsRequired (AddFlag sampleParser FloatFlag "x" true) "x" = true
  /\ IsLoaded (AddFlag sampleParser FloatFlag "x" true) "x" = false.
Proof.
  destruct (AddFlag_registers sampleParser FloatFlag "x" true) as (H1 & H2 & H3 & _);
    [discriminate|]. by repeat split.
Defined.

Lemma AddFlag_overwrites_witness :
  AddFlag {| vars := <["n" := IntArg {| intVar.v_name := "n"; intVar.v_value := 5;
                                        intVar.v_req := true;
                                        intVar.v_loaded := true |}]> ∅ |}
          StringFlag "n" false
  = AddFlag NewCmdParser StringFlag "n" false.
Proof.
  apply AddFlag_overwrites; [discriminate|].
  intros other Hne. cbn [vars NewCmdParser]. by rewrite lookup_insert_ne.
Defined.

Lemma SetVar_then_GetVar_witness :
  exists w',
    @SetVar sampleParseFloat "s" "hello" sampleWorld = (Returns tt, w')
    /\ stdout w' = []
    /\ GetVar (parser w') "s" = Returns (AnyString "hello")
    /\ IsLoaded (parser w') "s" = true.
Proof.
  destruct (@SetVar_then_GetVar sampleParseFloat sampleWorld "s" "hello"
              (StringArg (stringVar.createStringVar "s" false)) (AnyString "hello")
              eq_refl eq_refl) as (w' & H1 & H2 & H3 & H4 & _).
  exists w'. by repeat split.
Defined.

Lemma ParseFromString_true_iff_witness :
  wellFormed (strings.Fields "-n 5 -verbose")
  /\ forall name,
       IsRequired (parser (@ParseFromString sampleParseFloat "-n 5 -verbose"
                             sampleWorld).2) name = true ->
       IsLoaded (parser (@ParseFromString sampleParseFloat "-n 5 -verbose"
                           sampleWorld).2) name = true.
Proof.
  apply (@ParseFromString_true_iff sampleParseFloat "-n 5 -verbose" sampleWorld
           (@ParseFromString sampleParseFloat "-n 5 -verbose" sampleWorld).2 true).
  - by vm_compute.
  - reflexivity.
Defined.

Lemma ParseFromString_frame_witness :
  vars (parser (@ParseFromString sampleParseFloat "-n 5 -verbose" sampleWorld).2) !! "s"
  = vars sampleParser !! "s".
Proof.
  apply (@ParseFromString_frame sampleParseFloat "-n 5 -verbose" sampleWorld "s").
  intros fv Hin.
  change (fv ∈ [{| flag := "n"; value := "5" |};
                {| flag := "verbose"; value := "true" |}]) in Hin.
  apply elem_of_cons in Hin as [->|Hin]; [discriminate|].
  apply list_elem_of_singleton in Hin. subst fv. discriminate.
Defined.

Lemma ParseFromString_no_tokens_witness :
  @ParseFromString sampleParseFloat ("  " +:+ tab +:+ newline) sampleWorld
  = (Returns false,
     {| parser := sampleParser;
        stdout := [Println_text "Flags required but missing: %s-n"] |}).
Proof.
  exact (@ParseFromString_no_tokens sampleParseFloat ("  " +:+ tab +:+ newline)
           sampleWorld eq_refl).
Defined.

Lemma ParseFromCmdLine_tokens_witness :
  @ParseFromCmdLine sampleParseFloat ["prog"; "-s"; "a b"] sampleWorld
  = @ParseFromCmdLine sampleParseFloat ["other"; "-s"; ""; "a"; "b"] sampleWorld
  /\ strings.Fields (strings.Join ["-n"; "5"; "-verbose"] " ") = ["-n"; "5"; "-verbose"].
Proof.
  split.
  - exact (proj1 (@ParseFromCmdLine_tokens sampleParseFloat "prog" "other"
                    ["-s"; "a b"] ["-s"; ""; "a"; "b"] sampleWorld) eq_refl).
  - apply (proj2 (@ParseFromCmdLine_tokens sampleParseFloat "prog" "prog"
                    ["-n"; "5"; "-verbose"] [] sampleWorld)).
    intros a Ha. apply elem_of_cons in Ha as [->|Ha]; [reflexivity|].
    apply elem_of_cons in Ha as [->|Ha]; [reflexivity|].
    apply list_elem_of_singleton in Ha. by subst a.
Defined.

Lemma ParseFromFile_as_string_witness :
  @ParseFromFile sampleParseFloat
    (fun _ => Some ["-n 5 # first"; ""; tab +:+ "-s hello"]) "flags" sampleWorld
  = @ParseFromString sampleParseFloat "-n 5   -s hello" sampleWorld.
Proof.
  apply (proj1 (@ParseFromFile_as_string sampleParseFloat
                  (fun _ => Some ["-n 5 # first"; ""; tab +:+ "-s hello"]) "flags"
                  ["-n 5 # first"; ""; tab +:+ "-s hello"] sampleWorld eq_refl
                  ltac:(intros line Hl;
                        apply elem_of_cons in Hl as [->|Hl]; [reflexivity|];
                        apply elem_of_cons in Hl as [->|Hl]; [reflexivity|];
                        apply list_elem_of_singleton in Hl; by subst line))).
Defined.

Lemma ParseFromFile_without_comments_witness :
  @ParseFromFile sampleParseFloat (fun _ => Some ["-n"; "5 -s"; "hello"]) "flags"
    sampleWorld
  = @ParseFromString sampleParseFloat "-n 5 -s hello" sampleWorld.
Proof.
  apply (@ParseFromFile_without_comments sampleParseFloat
           (fun _ => Some ["-n"; "5 -s"; "hello"]) "flags" ["-n"; "5 -s"; "hello"]
           sampleWorld eq_refl).
  intros line Hl.
  apply elem_of_cons in Hl as [->|Hl]; [by split|].
  apply elem_of_cons in Hl as [->|Hl]; [by split|].
  apply list_elem_of_singleton in Hl. by subst line.
Defined.

Lemma ParseFromFile_only_comments_witness :
  @ParseFromFile sampleParseFloat (fun _ => Some ["# flags"; ""; tabs 2 +:+ "#"])
    "flags" sampleWorld
  = @ParseFromString sampleParseFloat "" sampleWorld.
Proof.
  apply (@ParseFromFile_only_comments sampleParseFloat
           (fun _ => Some ["# flags"; ""; tabs 2 +:+ "#"]) "flags"
           ["# flags"; ""; tabs 2 +:+ "#"] sampleWorld eq_refl).
  intros line Hl.
  apply elem_of_cons in Hl as [->|Hl]; [right; by exists 0%nat, " flags"|].
  apply elem_of_cons in Hl as [->|Hl]; [by left|].
  apply list_elem_of_singleton in Hl. subst line. right. by exists 2%nat, "".
Defined.

Lemma Parse_returns_only_true_witness :
  @Parse sampleParseFloat (fun _ => None) ["prog"] sampleWorld
  = (Exits 1,
     {| parser := sampleParser;
        stdout := [Println_text "call requires command line arguments"] |}).
Proof.
  exact (proj1 (proj2 (@Parse_returns_only_true sampleParseFloat (fun _ => None)
                         ["prog"] sampleWorld)) eq_refl).
Defined.

Lemma Parse_command_line_witness :
  @Parse sampleParseFloat (fun _ => None) ["prog"; "-s"; "hi"] sampleWorld
  = (Panics (PanicValue "Command line parsing error"),
     (@ParseFromString sampleParseFloat "-s hi" sampleWorld).2).
Proof.
  apply (@Parse_command_line sampleParseFloat (fun _ => None) "prog" "-s" ["hi"]
           sampleWorld _ false); [discriminate|]. by vm_compute.
Defined.

Lemma Parse_file_only_witness :
  @Parse sampleParseFloat (fun _ => None) ["prog"; "-is"; "flags"; "-n"; "5"] sampleWorld
  = (Panics (PanicValue "Command line parsing error"),
     {| parser := sampleParser;
        stdout := [Println_text "Cannot open command line file"] |}).
Proof.
  exact (proj2 (@Parse_file_only sampleParseFloat (fun _ => None) "prog" "flags"
                  ["-n"; "5"] sampleWorld) eq_refl).
Defined.

Lemma ParseFromString_no_negative_witness :
  IntArg {| intVar.v_name := "n"; intVar.v_value := 5; intVar.v_req := true;
            intVar.v_loaded := true |}
  = IntArg (intVar.createIntVar "n" true)
  \/ 0 <= 5.
Proof.
  apply (@ParseFromString_no_negative sampleParseFloat "-n 5" sampleWorld "n").
  - reflexivity.
  - by vm_compute.
  - by left.
Defined.

Lemma ParseFromString_int_without_value_witness :
  vars (parser (@ParseFromString sampleParseFloat "-n -s hi" sampleWorld).2) !! "n"
  = Some (IntArg (intVar.createIntVar "n" true)).
Proof.
  apply (@ParseFromString_int_without_value sampleParseFloat "-n -s hi" sampleWorld
           "n"); [reflexivity|by left|].
  intros fv Hin Hflag.
  change (fv ∈ [{| flag := "n"; value := "true" |}; {| flag := "s"; value := "hi" |}])
    in Hin.
  apply elem_of_cons in Hin as [->|Hin]; [reflexivity|].
  apply list_elem_of_singleton in Hin. subst fv. discriminate Hflag.
Defined.

Lemma FlagTypeString_tells_kind_witness :
  (FlagTypeString IntFlag = FlagTypeString Int64Flag -> IntFlag = Int64Flag)
  /\ FlagTypeString (ArgType (BoolArg (boolVar.createBoolVar "verbose" false)))
     = "BoolFlag".
Proof.
  split.
  - exact (proj1 (FlagTypeString_tells_kind IntFlag Int64Flag)).
  - apply (proj2 (FlagTypeString_tells_kind BoolFlag BoolFlag) NewCmdParser "verbose"
             false); [discriminate|reflexivity].
Defined.

Lemma IsLoaded_guards_GetVar_witness :
  IsFlag sampleParser "n" = true
  /\ (exists v, GetVar sampleParser "n" = Returns v)
  /\ IsLoaded sampleParser "x" = false.
Proof.
  destruct (@IsLoaded_guards_GetVar sampleParseFloat sampleWorld "n") as [Hyes _].
  destruct (@IsLoaded_guards_GetVar sampleParseFloat sampleWorld "x") as [_ Hno].
  destruct (Hyes (or_intror eq_refl)) as (Hflag & Hget & _).
  destruct (Hno eq_refl) as [Hl _]. by repeat split.
Defined.

Lemma ParseFromString_silent_witness :
  (@ParseFromString sampleParseFloat "-n 5 -s hi" sampleWorld).1 = Returns true
  /\ stdout (@ParseFromString sampleParseFloat "-n 5 -s hi" sampleWorld).2 = [].
Proof.
  apply (@ParseFromString_silent sampleParseFloat "-n 5 -s hi" sampleWorld).
  - apply wellFormedb_sound. reflexivity.
  - intros fv Hin.
    change (fv ∈ [{| flag := "n"; value := "5" |}; {| flag := "s"; value := "hi" |}])
      in Hin.
    apply elem_of_cons in Hin as [->|Hin]; [by eexists _, _|].
    apply list_elem_of_singleton in Hin. subst fv. by eexists _, _.
  - intros name a Ha Hr. right.
    exists {| flag := "n"; value := "5" |}. split; [left|].
    destruct (decide (name = "n")) as [->|Hn]; [done|].
    destruct (decide (name = "verbose")) as [->|Hv].
    { cbn in Ha. injection Ha as <-. discriminate Hr. }
    destruct (decide (name = "s")) as [->|Hs].
    { cbn in Ha. injection Ha as <-. discriminate Hr. }
    unfold sampleWorld, sampleParser, AddFlag, NewCmdParser in Ha. cbn [parser vars] in Ha.
    rewrite !lookup_insert_ne in Ha by done. by rewrite lookup_empty in Ha.
Defined.
